(** * Thespian: send-side flow control of the asynchronous transport base

    A shallow embedding of [thespian/system/timing.py] (class
    [ExpirationTimer]) and of
    [thespian/system/transport/asyncTransportBase.py] (class
    [asyncTransportBase]), followed by the properties proved about them.

    Conventions.
    - Clock readings, durations and expiry times are integers ([Z]), a count
      of nanoseconds; they are only added, subtracted and compared.  One
      microsecond is [1000] ticks.
    - [currentTime()] is an oracle: the [k]-th reading of the clock made by
      the program returns [clock k]; the number of readings made so far is
      part of the state.
    - Collaborators (address manager, serializer, Transport) are parameters.
      They do not raise, apart from the two documented retryable failures of
      [scheduleTransmit].
    - Where the code of the two modules itself raises, the function returns
      a [Result]; the callers pass the exception on as Python does, a
      [finally] clause running first.
    - [thesplog] calls that the source makes at WARNING level or inside the
      drain loop are recorded as [EvLog] events; [time.sleep] only lets time
      pass, which the clock oracle already allows between any two readings. *)

From Stdlib Require Import ZArith List Bool Arith Lia.
Import ListNotations.

Open Scope Z_scope.

(** The exceptions that the two modules raise by themselves, and how a call
    ends: it returns a value or raises. *)
Inductive Exception : Type := TypeError | OverflowError.

Inductive Result (A : Type) : Type :=
| Returns (a : A)
| Raises (e : Exception).
Arguments Returns {A} a.
Arguments Raises {A} e.

(* ================================================================= *)
(** ** timing.py *)

Module Timing.

(** [ExpirationTimer]: [duration] and [_time_to_quit] ([None]: never). *)
Record ExpirationTimer : Type := mkTimer {
    duration : option Z;
    _time_to_quit : option Z
  }.

Definition microsecond : Z := 1000.

(** [datetime.timedelta]: a whole number of microseconds, at most
    [timedelta.max]. *)
Record timedelta : Type := mkDelta { total_microseconds : Z }.

Definition timedelta_max : Z := 1000000000 * 86400 * 1000000 - 1.

(** [n / d] rounded to the nearest integer, a tie to the even one. *)
Definition round_half_even (n d : Z) : Z :=
  let q := n / d in
  let r := n mod d in
  if 2 * r <? d then q
  else if d <? 2 * r then q + 1
  else if Z.even q then q else q + 1.

(** [timedelta(seconds=s)] for a number [s]: [s] rounded to whole
    microseconds; [OverflowError] beyond [timedelta.max]. *)
Definition timedelta_of_seconds (s : Z) : Result timedelta :=
  let us := round_half_even s microsecond in
  if Z.abs us <=? timedelta_max then Returns (mkDelta us)
  else Raises OverflowError.

(** [number < timedelta]: Python does not order a number and a
    [timedelta]. *)
Definition lt_number_timedelta (x : Z) (d : timedelta) : Result bool :=
  Raises TypeError.

Section WithClock.
Variable clock : nat -> Z.

(** A computation that may read the clock: from the number of readings
        made so far to a result and the new number of readings. *)
Definition Clocked (A : Type) : Type := nat -> A * nat.

Definition currentTime : Clocked Z := fun r => (clock r, S r).

(** [__init__(duration)] *)
Definition init (d : option Z) : Clocked ExpirationTimer :=
      fun r =>
        match d with
        | None => (mkTimer None None, r)
        | Some x => let (now, r') := currentTime r in
                    (mkTimer (Some x) (Some (now + x)), r')
        end.

(** [expired()] *)
Definition expired (t : ExpirationTimer) : Clocked bool :=
      fun r =>
        match _time_to_quit t with
        | None => (false, r)
        | Some q => let (now, r') := currentTime r in (q <=? now, r')
        end.

(** [remainingSeconds(forever=None)] *)
Definition remainingSeconds (t : ExpirationTimer) : Clocked (option Z) :=
      fun r =>
        match _time_to_quit t with
        | None => (None, r)
        | Some q => let (now, r') := currentTime r in
                    (Some (Z.max (q - now) 0), r')
        end.

(** [remaining(forever=None)]: [timedelta(seconds=self.remainingSeconds())],
        [None] for a timer that never expires. *)
Definition remaining (t : ExpirationTimer)
      : Clocked (Result (option timedelta)) :=
      fun r =>
        match _time_to_quit t with
        | None => (Returns None, r)
        | Some _ =>
            let (s, r') := remainingSeconds t r in
            match s with
            | None => (Raises TypeError, r')   (* timedelta(seconds=None) *)
            | Some v =>
                match timedelta_of_seconds v with
                | Returns d => (Returns (Some d), r')
                | Raises e => (Raises e, r')
                end
            end
        end.

(** [__eq__(o)], for [o] a timer.  The last line compares a number with
        [timedelta(microseconds=1)]. *)
Definition __eq__ (a o : ExpirationTimer) : Clocked (Result bool) :=
      fun r =>
        match _time_to_quit a, _time_to_quit o with
        | None, None => (Returns true, r)
        | None, Some _ | Some _, None => (Returns false, r)
        | Some x, Some y =>
            if x =? y then (Returns true, r)
            else
              let (ea, r1) := expired a r in
              let (eo, r2) := if ea then expired o r1 else (false, r1) in
              if ea && eo then (Returns true, r2)
              else (lt_number_timedelta (Z.abs (x - y)) (mkDelta 1), r2)
        end.
End WithClock.

(** [with t as x]: the class defines neither [__enter__] nor [__exit__], so
    the statement raises before its body runs ([TypeError]; before Python
    3.11 an [AttributeError]). *)
Definition enter_context (t : ExpirationTimer) : Result ExpirationTimer :=
  Raises TypeError.

(** [__lt__(o)], for [o] a timer. *)
Definition __lt__ (a o : ExpirationTimer) : bool :=
    match _time_to_quit a, _time_to_quit o with
    | None, None => false
    | None, Some _ => false
    | Some _, None => true
    | Some x, Some y => x <? y
    end.

(** [__gt__(o)] *)
Definition __gt__ (a o : ExpirationTimer) : bool :=
    match _time_to_quit a, _time_to_quit o with
    | None, None => false
    | _, _ => negb (__lt__ a o)
    end.

(** [__le__], [__ge__], [__ne__]: each calls [__eq__] first and passes on
    what it raises. *)
Definition __le__ (clock : nat -> Z) (a o : ExpirationTimer)
  : Clocked (Result bool) :=
    fun r => let (e, r') := __eq__ clock a o r in
             match e with
             | Returns true => (Returns true, r')
             | Returns false => (Returns (__lt__ a o), r')
             | Raises x => (Raises x, r')
             end.
Definition __ge__ (clock : nat -> Z) (a o : ExpirationTimer)
  : Clocked (Result bool) :=
    fun r => let (e, r') := __eq__ clock a o r in
             match e with
             | Returns true => (Returns true, r')
             | Returns false => (Returns (__gt__ a o), r')
             | Raises x => (Raises x, r')
             end.
Definition __ne__ (clock : nat -> Z) (a o : ExpirationTimer)
  : Clocked (Result bool) :=
    fun r => let (e, r') := __eq__ clock a o r in
             match e with
             | Returns b => (Returns (negb b), r')
             | Raises x => (Raises x, r')
             end.

End Timing.


(* ================================================================= *)
(** ** asyncTransportBase.py: data *)

(** The values of [SendStatus] with which an intent is completed.  (The
    value [SendStatus.DeadTarget] occurs in the module only as what
    [prepMessageSend] returns in place of a message: [DeadTargetMarker]
    below.) *)
Inductive SendStatus : Type := Sent | Failed.

(** A message as this module tells messages apart: the marker
    [SendStatus.DeadTarget] that [prepMessageSend] returns in place of a
    message, an instance of [Thespian__UpdateWork], or any other message
    ([eq_raises]: its [__eq__] raises). *)
Inductive Message : Type :=
| DeadTargetMarker
| Thespian__UpdateWork
| UserMessage (payload : nat) (eq_raises : bool).

Definition ActorAddress : Type := nat.

(** Modelled from the spec: class [TransmitIntent] is not in src.  An intent
    has an identity, a target, a message, a serialized payload, a deadline
    and a completion notification; [callbacks] counts the
    [(onSuccess, onFailure)] pairs that [addCallback] has registered for
    this module. *)
Record TransmitIntent : Type := mkIntent {
  ident : nat;
  targetAddr : option ActorAddress;
  message : Message;
  serMsg : list nat;
  quitTime : Timing.ExpirationTimer;
  callbacks : nat
}.

Definition changeTargetAddr (a : option ActorAddress) (ti : TransmitIntent) :=
  mkIntent (ident ti) a (message ti) (serMsg ti) (quitTime ti) (callbacks ti).
Definition changeMessage (m : Message) (ti : TransmitIntent) :=
  mkIntent (ident ti) (targetAddr ti) m (serMsg ti) (quitTime ti) (callbacks ti).
Definition set_serMsg (b : list nat) (ti : TransmitIntent) :=
  mkIntent (ident ti) (targetAddr ti) (message ti) b (quitTime ti) (callbacks ti).
Definition addCallback (ti : TransmitIntent) :=
  mkIntent (ident ti) (targetAddr ti) (message ti) (serMsg ti) (quitTime ti)
           (S (callbacks ti)).

(** [addressManager.prepMessageSend(targetAddr, message)] *)
Definition AddressManager : Type :=
  option ActorAddress -> Message -> option ActorAddress * Message.

Inductive LogMsg : Type :=
| LogFakingDeadTarget (id : nat)
| LogDroppingTX
| LogTimedOut (id : nat)
| LogEnteringTxOnly
| LogNoTransportWork
| LogExitedTxOnly.

(** What the module does to the outside, in order. *)
Inductive Event : Type :=
| EvTxDone (id : nat) (s : SendStatus)        (* intent.tx_done(s) *)
| EvSerialize (id : nat)                      (* self.serializer(intent) *)
| EvTransmitActual (id : nat) (pending : Z) (processing sending : bool)
     (* self._scheduleTransmitActual(intent), with the count of pending
        transmits and the two flags as they are when the Transport is
        entered *)
| EvRun                                       (* self.run(TransmitOnly, ..) *)
| EvInterruptWait                             (* self.interrupt_wait() *)
| EvLog (m : LogMsg).

(** The fields of [asyncTransportBase] ([_aTB_lock] is implicit: one
    function of the state is one critical section), the clock readings made,
    the intents the Transport holds uncompleted, and the events so far. *)
Record World : Type := mkWorld {
  _aTB_numPendingTransmits : Z;
  _aTB_processing : bool;
  _aTB_sending : bool;
  _aTB_queuedPendingTransmits : list TransmitIntent;
  _aTB_rx_pause_enabled : bool;
  _aTB_interrupted : bool;
  reads : nat;
  inflight : list TransmitIntent;
  trace : list Event
}.

Definition set_numPendingTransmits (v : Z) (w : World) : World :=
  mkWorld v (_aTB_processing w) (_aTB_sending w)
    (_aTB_queuedPendingTransmits w) (_aTB_rx_pause_enabled w)
    (_aTB_interrupted w) (reads w) (inflight w) (trace w).
Definition set_processing (v : bool) (w : World) : World :=
  mkWorld (_aTB_numPendingTransmits w) v (_aTB_sending w)
    (_aTB_queuedPendingTransmits w) (_aTB_rx_pause_enabled w)
    (_aTB_interrupted w) (reads w) (inflight w) (trace w).
Definition set_sending (v : bool) (w : World) : World :=
  mkWorld (_aTB_numPendingTransmits w) (_aTB_processing w) v
    (_aTB_queuedPendingTransmits w) (_aTB_rx_pause_enabled w)
    (_aTB_interrupted w) (reads w) (inflight w) (trace w).
Definition set_queuedPendingTransmits (v : list TransmitIntent) (w : World) :=
  mkWorld (_aTB_numPendingTransmits w) (_aTB_processing w) (_aTB_sending w)
    v (_aTB_rx_pause_enabled w)
    (_aTB_interrupted w) (reads w) (inflight w) (trace w).
Definition set_rx_pause_enabled (v : bool) (w : World) : World :=
  mkWorld (_aTB_numPendingTransmits w) (_aTB_processing w) (_aTB_sending w)
    (_aTB_queuedPendingTransmits w) v
    (_aTB_interrupted w) (reads w) (inflight w) (trace w).
Definition set_interrupted (v : bool) (w : World) : World :=
  mkWorld (_aTB_numPendingTransmits w) (_aTB_processing w) (_aTB_sending w)
    (_aTB_queuedPendingTransmits w) (_aTB_rx_pause_enabled w)
    v (reads w) (inflight w) (trace w).
Definition set_reads (v : nat) (w : World) : World :=
  mkWorld (_aTB_numPendingTransmits w) (_aTB_processing w) (_aTB_sending w)
    (_aTB_queuedPendingTransmits w) (_aTB_rx_pause_enabled w)
    (_aTB_interrupted w) v (inflight w) (trace w).
Definition set_inflight (v : list TransmitIntent) (w : World) : World :=
  mkWorld (_aTB_numPendingTransmits w) (_aTB_processing w) (_aTB_sending w)
    (_aTB_queuedPendingTransmits w) (_aTB_rx_pause_enabled w)
    (_aTB_interrupted w) (reads w) v (trace w).
Definition set_trace (v : list Event) (w : World) : World :=
  mkWorld (_aTB_numPendingTransmits w) (_aTB_processing w) (_aTB_sending w)
    (_aTB_queuedPendingTransmits w) (_aTB_rx_pause_enabled w)
    (_aTB_interrupted w) (reads w) (inflight w) v.

(** [__init__] *)
Definition init_world : World :=
  mkWorld 0 false false [] true false 0%nat [] [].

(** The four thresholds (read from the environment when the module is
    imported) and the collaborators.
    - [serializer]: [None] when it raises.
    - [transmitActual ti w]: what the Transport does with [ti] inside
      [_scheduleTransmitActual], entered in state [w]: [Some s] when it
      completes [ti] with [s] before returning, [None] when it keeps it.
    - [transportRun rem w]: what [run(TransmitOnly, rem)] does, entered in
      state [w]: the intents it completes, in order, and the count it
      returns. *)
Record Env : Type := mkEnv {
  MAX_PENDING_TRANSMITS : Z;
  MAX_QUEUED_TRANSMITS : Z;
  QUEUE_TRANSMIT_UNBLOCK_THRESHOLD : Z;
  DROP_TRANSMITS_LEVEL : Z;
  clock : nat -> Z;
  serializer : TransmitIntent -> option (list nat);
  transmitActual : TransmitIntent -> World -> option SendStatus;
  transportRun : option Timing.timedelta -> World
                 -> list (nat * SendStatus) * Z
}.

(* ----------------------------------------------------------------- *)
(** *** The state monad of the embedding *)

(** A computation on the state; [None]: the iteration bound was reached. *)
Definition M (A : Type) : Type := World -> option (A * World).

Definition ret {A} (a : A) : M A := fun w => Some (a, w).
Definition bind {A B} (m : M A) (k : A -> M B) : M B :=
  fun w => match m w with
           | None => None
           | Some (a, w') => k a w'
           end.
Definition out_of_fuel {A} : M A := fun _ => None.
Definition get {A} (f : World -> A) : M A := fun w => Some (f w, w).
Definition modify (f : World -> World) : M unit := fun w => Some (tt, f w).

Notation "x <- c1 ;; c2" := (bind c1 (fun x => c2))
  (at level 61, c1 at next level, right associativity).
Notation "c1 ;; c2" := (bind c1 (fun _ => c2))
  (at level 61, right associativity).

Definition emit (e : Event) : M unit :=
  modify (fun w => set_trace (trace w ++ [e]) w).

Definition liftC {A} (c : Timing.Clocked A) : M A :=
  fun w => let (a, r) := c (reads w) in Some (a, set_reads r w).

Fixpoint forM_ {A} (l : list A) (f : A -> M unit) : M unit :=
  match l with
  | [] => ret tt
  | x :: r => f x ;; forM_ r f
  end.

Fixpoint repeatM (n : nat) (m : M unit) : M unit :=
  match n with
  | O => ret tt
  | S n' => m ;; repeatM n' m
  end.

Definition is_nil {A} (l : list A) : bool :=
  match l with [] => true | _ => false end.

(* ================================================================= *)
(** ** asyncTransportBase.py: operations *)

Section Operations.
Variable E : Env.

(** Modelled from the spec: [TransmitIntent.expired()] is not in src; an
    intent is expired when its own deadline is. *)
Definition intent_expired (ti : TransmitIntent) : M bool :=
  liftC (Timing.expired (clock E) (quitTime ti)).

(** Modelled from the spec: [TransmitIntent.delay()] is not in src; the
    drain deadline is bounded by the admitted intent's own deadline, so
    [delay()] is what remains of it, a duration as [ExpirationTimer]
    takes one. *)
Definition intent_delay (ti : TransmitIntent) : M (option Z) :=
  liftC (Timing.remainingSeconds (clock E) (quitTime ti)).

(** Modelled from the spec: [partition(pred, input, deque)] of
    [thespian.system.utilis] is not in src; it splits [input] into the
    elements for which [pred] holds and the others, each in input order,
    calling [pred] once per element, in order. *)
Fixpoint partition (p : TransmitIntent -> M bool) (l : list TransmitIntent)
  : M (list TransmitIntent * list TransmitIntent) :=
  match l with
  | [] => ret ([], [])
  | x :: r =>
      b <- p x ;;
      yn <- partition p r ;;
      ret (if b then (x :: fst yn, snd yn) else (fst yn, x :: snd yn))
  end.

(** [_canSendNow] *)
Definition _canSendNow : M bool :=
  get (fun w => _aTB_numPendingTransmits w <? MAX_PENDING_TRANSMITS E).

(** [_qtx]: one critical section. *)
Definition _qtx (transmitIntent : TransmitIntent) : M bool :=
  fun w =>
    if Z.of_nat (length (_aTB_queuedPendingTransmits w))
       <? DROP_TRANSMITS_LEVEL E
    then Some (true,
               set_queuedPendingTransmits
                 (_aTB_queuedPendingTransmits w ++ [transmitIntent]) w)
    else Some (false, w).

(** [_exclusively_processing]: one critical section. *)
Definition _exclusively_processing : M bool :=
  fun w =>
    if _aTB_processing w then Some (false, w)
    else Some (true, set_processing true w).

(** [_not_processing] *)
Definition _not_processing : M unit := modify (set_processing false).

(** The functions below call each other through the completion callback:
    [_runQueued] submits, the Transport may complete the intent at once,
    [tx_done] runs the registered [_async_txdone], which calls [_runQueued].
    They are written over [rq], the [_runQueued] they call back, and [k],
    the bound on the iterations of each [while]. *)
Section Knot.
Variable rq : bool -> M bool.
Variable k : nat.

(** [while self._canSendNow(): if not self._runQueued(): break] *)
Fixpoint refill_loop (n : nat) : M unit :=
  match n with
  | O => out_of_fuel
  | S n' =>
      c <- _canSendNow ;;
      if c then (b <- rq false ;; if b then refill_loop n' else ret tt)
      else ret tt
  end.

(** [_async_txdone] *)
Definition _async_txdone_body : M unit :=
  modify (fun w =>
            set_numPendingTransmits (_aTB_numPendingTransmits w - 1) w) ;;
  refill_loop k.

(** Modelled from the spec: [TransmitIntent.tx_done(status)] is not in src;
    it notifies the completion with [status] and runs the callbacks
    registered on the intent. *)
Definition tx_done_body (ti : TransmitIntent) (s : SendStatus) : M unit :=
  emit (EvTxDone (ident ti) s) ;;
  repeatM (callbacks ti) _async_txdone_body.

(** [_complete_expired_intents] *)
Definition _complete_expired_intents_body : M (Z * bool) :=
  q <- get _aTB_queuedPendingTransmits ;;
  ev <- partition intent_expired q ;;
  modify (set_queuedPendingTransmits (snd ev)) ;;
  forM_ (fst ev)
        (fun each => emit (EvLog (LogTimedOut (ident each))) ;;
                     tx_done_body each Failed) ;;
  ret (Z.of_nat (length (snd ev)), negb (is_nil (fst ev))).

(** [while e: v, e = self._complete_expired_intents()] *)
Fixpoint sweep_until_stable (n : nat) (e : bool) : M unit :=
  if e then
    match n with
    | O => out_of_fuel
    | S n' => ve <- _complete_expired_intents_body ;;
              sweep_until_stable n' (snd ve)
    end
  else ret tt.

(** [self._scheduleTransmitActual(intent, has_exclusive_flag)]: the
    Transport, which either completes the intent before it returns or keeps
    it until a later completion. *)
Definition _scheduleTransmitActual_body (ti : TransmitIntent) : M unit :=
  c <- get _aTB_numPendingTransmits ;;
  p <- get _aTB_processing ;;
  s <- get _aTB_sending ;;
  emit (EvTransmitActual (ident ti) c p s) ;;
  w <- get (fun w => w) ;;
  match transmitActual E ti w with
  | Some st => tx_done_body ti st
  | None => modify (fun w => set_inflight (inflight w ++ [ti]) w)
  end.

(** [_submitTransmit] *)
Definition _submitTransmit_body (transmitIntent : TransmitIntent) : M unit :=
  modify (fun w =>
            set_numPendingTransmits (_aTB_numPendingTransmits w + 1) w) ;;
  _scheduleTransmitActual_body (addCallback transmitIntent).

(** The first lines of [_runQueued]: sweep until no intent is expired. *)
Definition sweep_all : M unit :=
  ve <- _complete_expired_intents_body ;;
  sweep_until_stable k (snd ve).

(** The rest of [_runQueued]: the critical section, then [try]/[finally].
    (The intent popped is a true value, so [if nextTransmit:] holds when
    one was popped; the [while True] loop never comes round, since both
    branches of the [try] return.) *)
Definition submit_next (has_exclusive_flag : bool) : M bool :=
  p <- get _aTB_processing ;;
  if has_exclusive_flag || negb p then
    s <- get _aTB_sending ;;
    if s then ret false
    else
      q <- get _aTB_queuedPendingTransmits ;;
      match q with
      | [] => ret false
      | nextTransmit :: rest =>
          modify (set_processing true) ;;
          modify (set_sending true) ;;
          modify (set_queuedPendingTransmits rest) ;;
          _submitTransmit_body nextTransmit ;;
          modify (set_sending false) ;;
          modify (set_processing false) ;;
          ret true
      end
  else
    (* nextTransmit is None: [return False], then the [finally] clause *)
    modify (set_sending false) ;;
    modify (set_processing false) ;;
    ret false.

(** [_runQueued] *)
Definition _runQueued_body (has_exclusive_flag : bool) : M bool :=
  sweep_all ;;
  submit_next has_exclusive_flag.

End Knot.

(** [_runQueued], [fuel] bounding the depth of the calls through callbacks
    and the iterations of each loop. *)
Fixpoint _runQueued (fuel : nat) : bool -> M bool :=
  match fuel with
  | O => fun _ => out_of_fuel
  | S n => _runQueued_body (_runQueued n) n
  end.

Definition _async_txdone (fuel : nat) : M unit :=
  _async_txdone_body (_runQueued fuel) fuel.

Definition tx_done (fuel : nat) (ti : TransmitIntent) (s : SendStatus)
  : M unit :=
  tx_done_body (_runQueued fuel) fuel ti s.

Definition _complete_expired_intents (fuel : nat) : M (Z * bool) :=
  _complete_expired_intents_body (_runQueued fuel) fuel.

(** [_queue_tx] *)
Definition _queue_tx (fuel : nat) (transmitIntent : TransmitIntent) : M bool :=
  ok <- _qtx transmitIntent ;;
  if ok then ret true
  else
    emit (EvLog LogDroppingTX) ;;
    tx_done fuel transmitIntent Failed ;;
    ret false.

(** The first intent with identity [id] that the Transport holds. *)
Fixpoint take_inflight (id : nat) (l : list TransmitIntent)
  : option (TransmitIntent * list TransmitIntent) :=
  match l with
  | [] => None
  | x :: r =>
      if Nat.eqb (ident x) id then Some (x, r)
      else match take_inflight id r with
           | Some (y, r') => Some (y, x :: r')
           | None => None
           end
  end.

(** The Transport completes, with [s], the intent [id] that it holds: it
    calls the intent's [tx_done(s)].  Nothing happens when it holds none. *)
Definition transport_complete (fuel : nat) (id : nat) (s : SendStatus)
  : M unit :=
  fl <- get inflight ;;
  match take_inflight id fl with
  | None => ret tt
  | Some (ti, rest) => modify (set_inflight rest) ;; tx_done fuel ti s
  end.

(** [self.run(TransmitOnly, rem)] *)
Definition run_TransmitOnly (fuel : nat) (rem : option Timing.timedelta)
  : M Z :=
  emit EvRun ;;
  w <- get (fun w => w) ;;
  forM_ (fst (transportRun E rem w))
        (fun c => transport_complete fuel (fst c) (snd c)) ;;
  ret (snd (transportRun E rem w)).

(** Which of its three exits the drain loop took when it ends without an
    exception (the source returns nothing; the value only names the
    exit). *)
Inductive DrainExit : Type :=
| ExitThreshold      (* the [while] condition became false *)
| ExitDeadline       (* [if rem_time.expired(): break] *)
| ExitNoWork.        (* [if 0 == self.run(..): ..; break] *)

(** The [while v > QUEUE_TRANSMIT_UNBLOCK_THRESHOLD] loop of
    [_drain_tx_queue_if_needed]; its body is a [with finish_time as
    rem_time] block. *)
Fixpoint drain_loop (fuel : nat) (n : nat) (finish_time : Timing.ExpirationTimer)
                    (v : Z) : M (Result DrainExit) :=
  if QUEUE_TRANSMIT_UNBLOCK_THRESHOLD E <? v then
    match n with
    | O => out_of_fuel
    | S n' =>
        match Timing.enter_context finish_time with
        | Raises e => ret (Raises e)
        | Returns rem_time =>
            ex <- liftC (Timing.expired (clock E) rem_time) ;;
            if ex then ret (Returns ExitDeadline)
            else
              rem <- liftC (Timing.remaining (clock E) rem_time) ;;
              match rem with
              | Raises e => ret (Raises e)
              | Returns rem' =>
                  cnt <- run_TransmitOnly fuel rem' ;;
                  if cnt =? 0 then
                    emit (EvLog LogNoTransportWork) ;;
                    ret (Returns ExitNoWork)
                  else
                    ve <- _complete_expired_intents fuel ;;
                    drain_loop fuel n' finish_time (fst ve)
              end
        end
    end
  else ret (Returns ExitThreshold).

(** [max_delay if max_delay else None]: a zero duration is false. *)
Definition truthy_delay (max_delay : option Z) : option Z :=
  match max_delay with
  | Some d => if d =? 0 then None else Some d
  | None => None
  end.

(** [_drain_tx_queue_if_needed]; [None] when drain mode is not entered.  An
    exception of the loop leaves the function before its last log entry. *)
Definition _drain_tx_queue_if_needed (fuel : nat) (max_delay : option Z)
  : M (Result (option DrainExit)) :=
  ve <- _complete_expired_intents fuel ;;
  rx <- get _aTB_rx_pause_enabled ;;
  if (MAX_QUEUED_TRANSMITS E <=? fst ve) && rx then
    finish_time <- liftC (Timing.init (clock E) (truthy_delay max_delay)) ;;
    emit (EvLog LogEnteringTxOnly) ;;
    x <- drain_loop fuel fuel finish_time (fst ve) ;;
    match x with
    | Raises e => ret (Raises e)
    | Returns x' => emit (EvLog LogExitedTxOnly) ;; ret (Returns (Some x'))
    end
  else ret (Returns None).

Definition is_UpdateWork (m : Message) : bool :=
  match m with Thespian__UpdateWork => true | _ => false end.

(** The last loop of [_schedulePreparedIntent]; [main] is
    [is_main_thread()] of the calling thread. *)
Fixpoint drive_loop (fuel : nat) (n : nat) (main has_exclusive_flag : bool)
  : M unit :=
  match n with
  | O => out_of_fuel
  | S n' =>
      c <- _canSendNow ;;
      if c then
        b <- _runQueued fuel has_exclusive_flag ;;
        if b then drive_loop fuel n' main has_exclusive_flag
        else
          i <- get _aTB_interrupted ;;
          if negb main && negb i then
            modify (set_interrupted true) ;; emit EvInterruptWait
          else ret tt
      else ret tt
  end.

(** The [if not self._canSendNow():] block of [_schedulePreparedIntent];
    the [finally] clause clears the sending flag also when the drain
    raises. *)
Definition throttle (fuel : nat) (transmitIntent : TransmitIntent)
                    (has_exclusive_flag : bool) : M (Result unit) :=
  c <- _canSendNow ;;
  if c then ret (Returns tt)
  else
    got <- (if has_exclusive_flag then ret true else _exclusively_processing) ;;
    drainer <- (if got then
                  s <- get _aTB_sending ;;
                  d <- (if s then ret false
                        else modify (set_sending true) ;; ret true) ;;
                  _not_processing ;;
                  ret d
                else ret false) ;;
    if drainer then
      max_delay <- intent_delay transmitIntent ;;
      x <- _drain_tx_queue_if_needed fuel max_delay ;;
      modify (set_sending false) ;;
      match x with
      | Raises e => ret (Raises e)
      | Returns _ => ret (Returns tt)
      end
    else ret (Returns tt).   (* time.sleep(0.1) *)

(** The first part of [_schedulePreparedIntent], up to the point where the
    intent is completed, queued or dropped; [true]: go on. *)
Definition admit_prepared (fuel : nat) (transmitIntent : TransmitIntent)
  : M bool :=
  if is_nil (serMsg transmitIntent) then
    tx_done fuel transmitIntent Sent ;; ret false
  else if is_UpdateWork (message transmitIntent) then
    tx_done fuel transmitIntent Sent ;;
    modify (set_interrupted false) ;;
    ret true
  else _queue_tx fuel transmitIntent.

(** [_schedulePreparedIntent]; an exception of the drain leaves it before
    the last loop. *)
Definition _schedulePreparedIntent (fuel : nat) (main : bool)
    (transmitIntent : TransmitIntent) (has_exclusive_flag : bool)
  : M (Result unit) :=
  go <- admit_prepared fuel transmitIntent ;;
  if go then
    t <- throttle fuel transmitIntent has_exclusive_flag ;;
    match t with
    | Raises e => ret (Raises e)
    | Returns _ =>
        drive_loop fuel fuel main has_exclusive_flag ;;
        ret (Returns tt)
    end
  else ret (Returns tt).

(** How a call of [scheduleTransmit] ends: it returns, it raises one of the
    two retryable failures, or it raises what [_schedulePreparedIntent]
    raised. *)
Inductive Outcome : Type :=
| Returned
| Raised_CannotPickleAddress
| Raised_by_serializer
| Raised (e : Exception).

(** [txmsg == SendStatus.DeadTarget], [False] when the comparison raises. *)
Definition isDead (txmsg : Message) : bool :=
  match txmsg with
  | DeadTargetMarker => true
  | Thespian__UpdateWork => false
  | UserMessage _ _ => false
  end.

(** The end of [scheduleTransmit]: serialize, then schedule. *)
Definition serialize_and_schedule (fuel : nat) (main : bool)
    (transmitIntent : TransmitIntent) (has_exclusive_flag : bool)
  : M Outcome :=
  match serializer E transmitIntent with
  | None => ret Raised_by_serializer
  | Some b =>
      emit (EvSerialize (ident transmitIntent)) ;;
      x <- _schedulePreparedIntent fuel main (set_serMsg b transmitIntent)
                                   has_exclusive_flag ;;
      match x with
      | Raises e => ret (Raised e)
      | Returns _ => ret Returned
      end
  end.

(** [scheduleTransmit] *)
Definition scheduleTransmit (fuel : nat) (main : bool)
    (addressManager : option AddressManager)
    (transmitIntent : TransmitIntent) (has_exclusive_flag : bool)
  : M Outcome :=
  match addressManager with
  | Some prepMessageSend =>
      let (targetAddr', txmsg) :=
        prepMessageSend (targetAddr transmitIntent) (message transmitIntent) in
      if isDead txmsg then
        emit (EvLog (LogFakingDeadTarget (ident transmitIntent))) ;;
        tx_done fuel transmitIntent Sent ;;
        ret Returned
      else
        match targetAddr' with
        | None => ret Raised_CannotPickleAddress
        | Some a =>
            serialize_and_schedule fuel main
              (changeMessage txmsg (changeTargetAddr (Some a) transmitIntent))
              has_exclusive_flag
        end
  | None =>
      serialize_and_schedule fuel main transmitIntent has_exclusive_flag
  end.

(** [deadAddress] *)
Definition deadAddress (addressManager : AddressManager)
                       (childAddr : ActorAddress) : M unit :=
  modify (fun w =>
    set_queuedPendingTransmits
      (map (fun each =>
              match targetAddr each with
              | Some a =>
                  if Nat.eqb a childAddr then
                    let (newtgt, newmsg) :=
                      addressManager (targetAddr each) (message each) in
                    changeMessage newmsg (changeTargetAddr newtgt each)
                  else each
              | None => each
              end)
           (_aTB_queuedPendingTransmits w)) w).

(** [enableRXPauseFlowControl] *)
Definition enableRXPauseFlowControl (enable : bool) : M unit :=
  modify (set_rx_pause_enabled enable).

End Operations.

(* ================================================================= *)
(** ** Notions used to state the properties *)

(** Number of completions [tx_done] of intent [id] in a trace. *)
Fixpoint fired (id : nat) (tr : list Event) : nat :=
  match tr with
  | [] => O
  | EvTxDone i _ :: r => if Nat.eqb i id then S (fired id r) else fired id r
  | _ :: r => fired id r
  end.

(** Number of intents of identity [id] in a list of intents. *)
Fixpoint occ (id : nat) (l : list TransmitIntent) : nat :=
  match l with
  | [] => O
  | x :: r => if Nat.eqb (ident x) id then S (occ id r) else occ id r
  end.

(** Where intent [id] is: completed, queued or with the Transport. *)
Definition owned (w : World) (id : nat) : nat :=
  (fired id (trace w) + occ id (_aTB_queuedPendingTransmits w)
   + occ id (inflight w))%nat.

(** Number of [interrupt_wait()] calls in a trace. *)
Fixpoint interrupts (tr : list Event) : nat :=
  match tr with
  | [] => O
  | EvInterruptWait :: r => S (interrupts r)
  | _ :: r => interrupts r
  end.

(** Number of calls of [run(TransmitOnly, ..)] in a trace. *)
Fixpoint runs (tr : list Event) : nat :=
  match tr with
  | [] => O
  | EvRun :: r => S (runs r)
  | _ :: r => runs r
  end.

(** The Transport was entered for intent [id] in this trace. *)
Fixpoint transmitted (id : nat) (tr : list Event) : bool :=
  match tr with
  | [] => false
  | EvTransmitActual i _ _ _ :: r => Nat.eqb i id || transmitted id r
  | _ :: r => transmitted id r
  end.

(** The count and the flags with which the Transport was entered, per
    submission. *)
Fixpoint transport_entries (tr : list Event) : list (Z * bool * bool) :=
  match tr with
  | [] => []
  | EvTransmitActual _ c p s :: r => (c, p, s) :: transport_entries r
  | _ :: r => transport_entries r
  end.

(** An intent's deadline has passed at time [now]. *)
Definition expired_at (now : Z) (ti : TransmitIntent) : bool :=
  match Timing._time_to_quit (quitTime ti) with
  | None => false
  | Some q => q <=? now
  end.

(** No reading of the clock from the [r]-th on reaches the deadline. *)
Definition never_expires_from (clock : nat -> Z) (r : nat)
                              (ti : TransmitIntent) : Prop :=
  match Timing._time_to_quit (quitTime ti) with
  | None => True
  | Some q => forall r', (r <= r')%nat -> clock r' < q
  end.

(** One sweep over a queue, as a function: the expired intents, the valid
    ones, and the number of clock readings afterwards. *)
Fixpoint sweep_split (clock : nat -> Z) (r : nat) (q : list TransmitIntent)
  : list TransmitIntent * list TransmitIntent * nat :=
  match q with
  | [] => ([], [], r)
  | x :: t =>
      let (b, r1) := Timing.expired clock (quitTime x) r in
      let '(yes, no, r2) := sweep_split clock r1 t in
      if b then (x :: yes, no, r2) else (yes, x :: no, r2)
  end.

(** What a sweep does to the outside for the intents it removes. *)
Definition sweep_events (removed : list TransmitIntent) : list Event :=
  flat_map (fun ti => [EvLog (LogTimedOut (ident ti));
                       EvTxDone (ident ti) Failed]) removed.

(** The state after one sweep of a queue whose intents carry no callback. *)
Definition sweep_world (E : Env) (w : World) : World :=
  let '(yes, no, r) :=
    sweep_split (clock E) (reads w) (_aTB_queuedPendingTransmits w) in
  set_trace (trace w ++ sweep_events yes)
    (set_queuedPendingTransmits no (set_reads r w)).

Definition sweep_result (E : Env) (w : World) : Z * bool :=
  let '(yes, no, _) :=
    sweep_split (clock E) (reads w) (_aTB_queuedPendingTransmits w) in
  (Z.of_nat (length no), negb (is_nil yes)).

(** A state reached from [w] by sweeps alone. *)
Inductive swept (E : Env) : World -> World -> Prop :=
| swept_refl : forall w, swept E w w
| swept_step : forall w w', swept E (sweep_world E w) w' -> swept E w w'.

(** Queued intents carry no callback of this module; those the Transport
    holds carry the one [_submitTransmit] registered. *)
Definition queue_fresh (w : World) : Prop :=
  Forall (fun ti => callbacks ti = O) (_aTB_queuedPendingTransmits w).
Definition inflight_registered (w : World) : Prop :=
  Forall (fun ti => callbacks ti = 1%nat) (inflight w).

(** Every entry into the Transport found between [1] and
    [MAX_PENDING_TRANSMITS] transmits pending, the new one included. *)
Definition entries_bounded (E : Env) (tr : list Event) : Prop :=
  Forall (fun e => 1 <= fst (fst e) <= MAX_PENDING_TRANSMITS E)
         (transport_entries tr).

(** The invariant of the core: [f id] says how many intents of identity
    [id] have been accepted. *)
Record Inv (E : Env) (f : nat -> nat) (w : World) : Prop := mkInv {
  inv_queue_fresh : queue_fresh w;
  inv_inflight_registered : inflight_registered w;
  inv_count : _aTB_numPendingTransmits w = Z.of_nat (length (inflight w));
  inv_count_max :
    0 <= MAX_PENDING_TRANSMITS E ->
    _aTB_numPendingTransmits w <= MAX_PENDING_TRANSMITS E;
  inv_queue_max :
    0 <= DROP_TRANSMITS_LEVEL E ->
    Z.of_nat (length (_aTB_queuedPendingTransmits w))
    <= DROP_TRANSMITS_LEVEL E;
  inv_entries : entries_bounded E (trace w);
  inv_owned : forall id, owned w id = f id
}.

(** One more accepted intent of identity [i]. *)
Definition accept (i : nat) (f : nat -> nat) : nat -> nat :=
  fun id => if Nat.eqb i id then S (f id) else f id.

Definition accepted_count (acc : list nat) : nat -> nat :=
  fun id => count_occ Nat.eq_dec acc id.

(** [scheduleTransmit] accepted the intent: the call got as far as
    [_schedulePreparedIntent], which completes the intent or queues it
    before anything else; it returned, or it raised from the drain that
    follows.  After the two retryable failures the intent is not
    accepted. *)
Definition accepted (o : Outcome) : bool :=
  match o with
  | Returned | Raised _ => true
  | Raised_CannotPickleAddress | Raised_by_serializer => false
  end.

(** The states the core reaches, with the identities of the intents that
    [scheduleTransmit] accepted so far.  Callers submit intents that are
    new to the core; the Transport completes intents that it holds. *)
Inductive reachable (E : Env) : World -> list nat -> Prop :=
| reach_init : reachable E init_world []
| reach_submit : forall w acc fuel main am ti flag w' o,
    reachable E w acc ->
    callbacks ti = O -> ~ In (ident ti) acc ->
    scheduleTransmit E fuel main am ti flag w = Some (o, w') ->
    accepted o = true ->
    reachable E w' (ident ti :: acc)
| reach_raise : forall w acc fuel main am ti flag w' o,
    reachable E w acc ->
    callbacks ti = O -> ~ In (ident ti) acc ->
    scheduleTransmit E fuel main am ti flag w = Some (o, w') ->
    accepted o = false ->
    reachable E w' acc
| reach_complete : forall w acc fuel id s w',
    reachable E w acc ->
    transport_complete E fuel id s w = Some (tt, w') ->
    reachable E w' acc
| reach_deadAddress : forall w acc am child w',
    reachable E w acc ->
    deadAddress am child w = Some (tt, w') ->
    reachable E w' acc
| reach_enableRX : forall w acc b w',
    reachable E w acc ->
    enableRXPauseFlowControl b w = Some (tt, w') ->
    reachable E w' acc.

(** Partial correctness of a computation. *)
Definition hoare {A} (P : World -> Prop) (m : M A) (Q : A -> World -> Prop)
  : Prop :=
  forall w a w', P w -> m w = Some (a, w') -> Q a w'.

(* ----------------------------------------------------------------- *)
(** *** Concrete instances *)

(** Small thresholds, a clock that advances by one tick per reading, a
    serializer that never fails, a Transport that keeps what it is given and
    reports no work. *)
Definition demo_env : Env :=
  mkEnv 2 4 2 5 (fun r => Z.of_nat r) (fun ti => Some [ident ti])
        (fun _ _ => None) (fun _ _ => ([], 0)).

(** The same with a clock that stands still at [0]. *)
Definition still_env : Env :=
  mkEnv 2 4 2 5 (fun _ => 0) (fun ti => Some [ident ti])
        (fun _ _ => None) (fun _ _ => ([], 0)).

(** The same with a Transport that completes every intent at once. *)
Definition sync_env : Env :=
  mkEnv 2 4 2 5 (fun _ => 0) (fun ti => Some [ident ti])
        (fun _ _ => Some Sent) (fun _ _ => ([], 0)).

(** The same with a Transport whose [run] always reports one unit of work
    and completes nothing. *)
Definition busy_env : Env :=
  mkEnv 2 4 2 5 (fun r => Z.of_nat r) (fun ti => Some [ident ti])
        (fun _ _ => None) (fun _ _ => ([], 1)).

(** A serializer that yields an empty payload. *)
Definition empty_env : Env :=
  mkEnv 2 4 2 5 (fun _ => 0) (fun _ => Some [])
        (fun _ _ => None) (fun _ _ => ([], 0)).

(** The thresholds of the source. *)
Definition default_env : Env :=
  mkEnv 20 950 780 (950 + 100) (fun r => Z.of_nat r)
        (fun ti => Some [ident ti]) (fun _ _ => None) (fun _ _ => ([], 0)).

Definition forever : Timing.ExpirationTimer := Timing.mkTimer None None.
Definition until (q : Z) : Timing.ExpirationTimer :=
  Timing.mkTimer (Some q) (Some q).

(** A new intent for target [7]. *)
Definition intent (id : nat) (t : Timing.ExpirationTimer) : TransmitIntent :=
  mkIntent id (Some 7%nat) (UserMessage id false) [] t O.
Definition queued (id : nat) (t : Timing.ExpirationTimer) : TransmitIntent :=
  mkIntent id (Some 7%nat) (UserMessage id false) [id] t O.
Definition wake (id : nat) : TransmitIntent :=
  mkIntent id (Some 7%nat) Thespian__UpdateWork [] forever O.

Definition dead_manager : AddressManager :=
  fun a _ => (a, DeadTargetMarker).

(** Three submissions from the driving thread, then the completion of the
    first by the Transport: [1] and [2] go to the Transport, [3] waits in
    the queue until [1] is done. *)
Definition submit_demo (id : nat) (w : World) : World :=
  match scheduleTransmit demo_env 8 true None (intent id forever) false w with
  | Some (_, w') => w'
  | None => w
  end.
Definition demo_world3 : World :=
  Eval vm_compute in submit_demo 3 (submit_demo 2 (submit_demo 1 init_world)).
Definition demo_world : World :=
  Eval vm_compute in
    match transport_complete demo_env 8 1 Sent demo_world3 with
    | Some (_, w') => w'
    | None => demo_world3
    end.

(** Three more submissions after the first three: [4], [5] and [6] join
    [3] in the queue, which then holds [MAX_QUEUED_TRANSMITS] intents. *)
Definition overload_world5 : World :=
  Eval vm_compute in submit_demo 5 (submit_demo 4 demo_world3).
Definition overload_world : World :=
  Eval vm_compute in submit_demo 6 overload_world5.


(* ----------------------------------------------------------------- *)
(** *** The core as a transition system *)

(** Events that concern neither an intent nor the driving thread. *)
Inductive inert : Event -> Prop :=
| inert_log : forall m, inert (EvLog m).

(** The steps that driving the queue is made of: a sweep, a change of one of
    the two flags, a reading of the clock, a log entry, the submission of
    the head of the queue (the Transport keeps it, or completes it with [s]
    at once), and the completion of an intent that the Transport holds. *)
Inductive core_step (E : Env) : World -> World -> Prop :=
| step_sweep : forall w,
    queue_fresh w -> core_step E w (sweep_world E w)
| step_processing : forall b w, core_step E w (set_processing b w)
| step_sending : forall b w, core_step E w (set_sending b w)
| step_reads : forall r w, core_step E w (set_reads r w)
| step_emit : forall e w,
    inert e -> core_step E w (set_trace (trace w ++ [e]) w)
| step_submit_keep : forall x rest w,
    _aTB_queuedPendingTransmits w = x :: rest ->
    callbacks x = O ->
    _aTB_numPendingTransmits w < MAX_PENDING_TRANSMITS E ->
    core_step E w
      (mkWorld (_aTB_numPendingTransmits w + 1) (_aTB_processing w)
         (_aTB_sending w) rest (_aTB_rx_pause_enabled w)
         (_aTB_interrupted w) (reads w)
         (inflight w ++ [addCallback x])
         (trace w ++ [EvTransmitActual (ident x)
                        (_aTB_numPendingTransmits w + 1)
                        (_aTB_processing w) (_aTB_sending w)]))
| step_submit_done : forall x rest s w,
    _aTB_queuedPendingTransmits w = x :: rest ->
    callbacks x = O ->
    _aTB_numPendingTransmits w < MAX_PENDING_TRANSMITS E ->
    core_step E w
      (mkWorld (_aTB_numPendingTransmits w) (_aTB_processing w)
         (_aTB_sending w) rest (_aTB_rx_pause_enabled w)
         (_aTB_interrupted w) (reads w) (inflight w)
         (trace w ++ [EvTransmitActual (ident x)
                        (_aTB_numPendingTransmits w + 1)
                        (_aTB_processing w) (_aTB_sending w);
                      EvTxDone (ident x) s]))
| step_complete : forall id s x rest w,
    take_inflight id (inflight w) = Some (x, rest) ->
    core_step E w
      (mkWorld (_aTB_numPendingTransmits w - 1) (_aTB_processing w)
         (_aTB_sending w) (_aTB_queuedPendingTransmits w)
         (_aTB_rx_pause_enabled w) (_aTB_interrupted w) (reads w) rest
         (trace w ++ [EvTxDone (ident x) s])).

Inductive core_steps (E : Env) : World -> World -> Prop :=
| steps_refl : forall w, core_steps E w w
| steps_step : forall w1 w2 w3,
    core_step E w1 w2 -> core_steps E w2 w3 -> core_steps E w1 w3.

Definition WF (w : World) : Prop :=
  queue_fresh w /\ inflight_registered w.

(** The state in which the Transport is entered for [x] from state [w]. *)
Definition entered (x : TransmitIntent) (w : World) : World :=
  set_trace (trace w ++ [EvTransmitActual (ident x)
                           (_aTB_numPendingTransmits w + 1)
                           (_aTB_processing w) (_aTB_sending w)])
    (set_numPendingTransmits (_aTB_numPendingTransmits w + 1) w).

(** The state after the completion of [x] with [s] is notified and
    [_async_txdone] has counted it. *)
Definition completed (x : TransmitIntent) (s : SendStatus) (w : World) : World :=
  set_numPendingTransmits (_aTB_numPendingTransmits w - 1)
    (set_trace (trace w ++ [EvTxDone (ident x) s]) w).

(** The state in which [_submitTransmit] is called for the head of the
    queue. *)
Definition popped (rest : list TransmitIntent) (w : World) : World :=
  set_queuedPendingTransmits rest (set_sending true (set_processing true w)).

(** The [finally] clause of [_runQueued]. *)
Definition released (w : World) : World :=
  set_processing false (set_sending false w).

(** A [_runQueued] that, called with room for one more transmit, only makes
    steps of the core. *)
Definition refines (E : Env) (rq : bool -> M bool) : Prop :=
  forall flag w b w',
    WF w ->
    _aTB_numPendingTransmits w < MAX_PENDING_TRANSMITS E ->
    rq flag w = Some (b, w') -> core_steps E w w'.

(** The state in which the drain loop is reached: swept, the deadline made
    and the entry logged. *)
Definition drain_entered (E : Env) (d : option Z) (w : World) : World :=
  let w1 := sweep_world E w in
  set_trace (trace w1 ++ [EvLog LogEnteringTxOnly])
    (set_reads (snd (Timing.init (clock E) (truthy_delay d) (reads w1))) w1).

(** A queue at [MAX_QUEUED_TRANSMITS] of [busy_env], nothing pending, the
    sending flag set by the drainer. *)
Definition backlog : list TransmitIntent :=
  [queued 1 forever; queued 2 forever; queued 3 forever; queued 4 forever].
Definition backlog_world : World :=
  set_sending true (set_queuedPendingTransmits backlog init_world).

(* ================================================================= *)
(** ** timing.py: class [ExpiryTime] *)

Module ExpiryTime.

(** [ExpiryTime]: [_time_to_quit] ([None]: never). *)
Record ExpiryTime : Type := mkExpiry {
  _time_to_quit : option Z
}.

(** [__init__(duration)] *)
Definition init (clock : nat -> Z) (d : option Z)
  : Timing.Clocked ExpiryTime :=
  fun r =>
    match d with
    | None => (mkExpiry None, r)
    | Some x => let (now, r') := Timing.currentTime clock r in
                (mkExpiry (Some (now + x)), r')
    end.

(** [expired()] *)
Definition expired (clock : nat -> Z) (t : ExpiryTime) : Timing.Clocked bool :=
  fun r =>
    match _time_to_quit t with
    | None => (false, r)
    | Some q => let (now, r') := Timing.currentTime clock r in (q <=? now, r')
    end.

(** [remaining(forever=None)]: zero if the clock is past the expiry time,
    else the expiry time less a second reading of the clock. *)
Definition remaining (clock : nat -> Z) (t : ExpiryTime)
  : Timing.Clocked (option Z) :=
  fun r =>
    match _time_to_quit t with
    | None => (None, r)
    | Some q =>
        let (now, r1) := Timing.currentTime clock r in
        if q <? now then (Some 0, r1)
        else let (now2, r2) := Timing.currentTime clock r1 in
             (Some (q - now2), r2)
    end.

End ExpiryTime.

(** A clock that never runs backwards ([time.perf_counter]). *)
Definition monotone (clock : nat -> Z) : Prop :=
  forall r r', (r <= r')%nat -> clock r <= clock r'.

(* ================================================================= *)
(** ** asyncTransportBase.py: [exclusive_processing] *)



(* ----------------------------------------------------------------- *)
(** *** Further notions used to state properties *)

(** The identities of the intents for which the Transport was entered, in
    order. *)
Fixpoint transmitted_ids (tr : list Event) : list nat :=
  match tr with
  | [] => []
  | EvTransmitActual i _ _ _ :: r => i :: transmitted_ids r
  | _ :: r => transmitted_ids r
  end.

(** [subseq l1 l2]: [l1] is [l2] with some elements left out. *)
Inductive subseq {A : Type} : list A -> list A -> Prop :=
| subseq_nil : subseq [] []
| subseq_skip : forall x l1 l2, subseq l1 l2 -> subseq l1 (x :: l2)
| subseq_take : forall x l1 l2, subseq l1 l2 -> subseq (x :: l1) (x :: l2).

(** From [w] to [w'] intents went to the Transport in queue order: those
    entered, followed by those still queued, are the intents queued in [w]
    with some left out. *)
Definition fifo (queued_before : list nat) (w w' : World) : Prop :=
  exists new,
    transmitted_ids (trace w') = transmitted_ids (trace w) ++ new
    /\ subseq (new ++ map ident (_aTB_queuedPendingTransmits w'))
              queued_before.

(** Nobody holds the rights and no submission is under way. *)
Definition quiet (w : World) : Prop :=
  _aTB_processing w = false /\ _aTB_sending w = false.

(** The two flags are as before, or both clear. *)
Definition flags_kept_or_clear (w w' : World) : Prop :=
  quiet w'
  \/ (_aTB_processing w' = _aTB_processing w
      /\ _aTB_sending w' = _aTB_sending w).

(* ================================================================= *)
(** ** Properties *)

(* ----------------------------------------------------------------- *)
(** *** The monad *)

Lemma bind_Some {A B} (m : M A) (k : A -> M B) w b w' :
  bind m k w = Some (b, w') ->
  exists a w1, m w = Some (a, w1) /\ k a w1 = Some (b, w').
Proof.
  unfold bind. destruct (m w) as [[a w1]|]; [|discriminate].
  intros H. exists a, w1. split; [reflexivity|exact H].
Qed.

Lemma bind_eq {A B} (m : M A) (k : A -> M B) w a w1 :
  m w = Some (a, w1) -> bind m k w = k a w1.
Proof. unfold bind. intros ->. reflexivity. Qed.

(** Break a hypothesis [(x <- m ;; k) w = Some r] into its two runs. *)
Ltac minv H :=
  let a := fresh "a" in
  let w1 := fresh "w" in
  let H1 := fresh "Hm" in
  apply bind_Some in H; destruct H as (a & w1 & H1 & H).

Lemma set_trace_set_trace t1 t2 w :
  set_trace t2 (set_trace t1 w) = set_trace t2 w.
Proof. reflexivity. Qed.

Lemma emit_eq e w : emit e w = Some (tt, set_trace (trace w ++ [e]) w).
Proof. reflexivity. Qed.

(* ----------------------------------------------------------------- *)
(** *** Completion of an intent that carries no callback *)

Section Sweeps.
Variable E : Env.
Variable rq : bool -> M bool.
Variable k : nat.

Lemma tx_done_body_fresh ti s w :
  callbacks ti = O ->
  tx_done_body E rq k ti s w
  = Some (tt, set_trace (trace w ++ [EvTxDone (ident ti) s]) w).
Proof.
  intros H. unfold tx_done_body. rewrite H. reflexivity.
Qed.

Lemma partition_eq q w :
  partition (intent_expired E) q w
  = Some (fst (sweep_split (clock E) (reads w) q),
          set_reads (snd (sweep_split (clock E) (reads w) q)) w).
Proof.
  revert w. induction q as [|x t IH]; intros w.
  - destruct w; reflexivity.
  - cbn [partition sweep_split].
    unfold bind at 1. unfold intent_expired at 1. unfold liftC.
    destruct (Timing.expired (clock E) (quitTime x) (reads w)) as [b r1] eqn:Hx.
    unfold bind at 1. rewrite IH. cbn [reads set_reads].
    destruct (sweep_split (clock E) r1 t) as [[yes no] r2].
    destruct b; reflexivity.
Qed.

Lemma forM_sweep_events removed w :
  Forall (fun ti => callbacks ti = O) removed ->
  forM_ removed
        (fun each => emit (EvLog (LogTimedOut (ident each))) ;;
                     tx_done_body E rq k each Failed) w
  = Some (tt, set_trace (trace w ++ sweep_events removed) w).
Proof.
  intros H. revert w. induction H as [|x l Hx Hl IH]; intros w.
  - cbn. rewrite app_nil_r. destruct w; reflexivity.
  - cbn [forM_]. unfold bind at 1. unfold bind at 1. rewrite emit_eq.
    rewrite (tx_done_body_fresh _ _ _ Hx). rewrite IH.
    destruct w; cbn. rewrite <- !app_assoc. reflexivity.
Qed.

Lemma sweep_split_Forall P clock r q :
  Forall P q ->
  Forall P (fst (fst (sweep_split clock r q)))
  /\ Forall P (snd (fst (sweep_split clock r q))).
Proof.
  intros H. revert r. induction H as [|x l Hx Hl IH]; intros r.
  - cbn. split; constructor.
  - cbn [sweep_split].
    destruct (Timing.expired clock (quitTime x) r) as [b r1].
    specialize (IH r1).
    destruct (sweep_split clock r1 l) as [[yes no] r2]. cbn in IH.
    destruct IH as [IH1 IH2].
    destruct b; cbn; split; auto.
Qed.

(** One sweep of a fresh queue is the function [sweep_world]. *)
Lemma sweep_eq w :
  queue_fresh w ->
  _complete_expired_intents_body E rq k w
  = Some (sweep_result E w, sweep_world E w).
Proof.
  intros Hq. unfold _complete_expired_intents_body.
  unfold bind at 1. cbn [get]. unfold bind at 1. rewrite partition_eq.
  unfold sweep_result, sweep_world.
  pose proof (sweep_split_Forall _ (clock E) (reads w) _ Hq) as [Hy _].
  destruct (sweep_split (clock E) (reads w) (_aTB_queuedPendingTransmits w))
    as [[yes no] r] eqn:Hs.
  cbn [fst snd] in *. cbn [reads set_reads].
  unfold bind at 1. cbn [modify]. unfold bind at 1.
  rewrite (forM_sweep_events _ _ Hy). reflexivity.
Qed.

End Sweeps.

(* ----------------------------------------------------------------- *)
(** *** A sweep while the clock stands still *)

Lemma expired_reads clock t r :
  snd (Timing.expired clock t r) = r \/ snd (Timing.expired clock t r) = S r.
Proof.
  unfold Timing.expired. destruct (Timing._time_to_quit t); cbn; auto.
Qed.

Lemma expired_still clock ti r now :
  clock r = now ->
  fst (Timing.expired clock (quitTime ti) r) = expired_at now ti.
Proof.
  intros H. unfold Timing.expired, expired_at.
  destruct (Timing._time_to_quit (quitTime ti)); cbn; [rewrite H|]; reflexivity.
Qed.

Lemma sweep_split_still clock now q : forall r,
  (forall r', (r <= r' < r + length q)%nat -> clock r' = now) ->
  fst (sweep_split clock r q)
  = (filter (expired_at now) q,
     filter (fun ti => negb (expired_at now ti)) q).
Proof.
  induction q as [|x t IH]; intros r Hc; [reflexivity|].
  cbn [sweep_split filter].
  pose proof (expired_still clock x r now) as Hx.
  pose proof (expired_reads clock (quitTime x) r) as Hr.
  destruct (Timing.expired clock (quitTime x) r) as [b r1]. cbn in Hx, Hr.
  rewrite <- Hx by (apply Hc; cbn; lia).
  assert (Ht : fst (sweep_split clock r1 t)
               = (filter (expired_at now) t,
                  filter (fun ti => negb (expired_at now ti)) t)).
  { apply IH. intros r' Hr'. apply Hc. cbn. destruct Hr; subst; lia. }
  destruct (sweep_split clock r1 t) as [[yes no] r2]. cbn in Ht.
  injection Ht as -> ->. destruct b; reflexivity.
Qed.

Lemma filter_nil_existsb {A} (p : A -> bool) l :
  negb (is_nil (filter p l)) = existsb p l.
Proof.
  induction l as [|x l IH]; [reflexivity|]. cbn.
  destruct (p x); [reflexivity|exact IH].
Qed.

Lemma filter_none {A} (p : A -> bool) l :
  existsb p l = false ->
  filter p l = [] /\ filter (fun x => negb (p x)) l = l.
Proof.
  induction l as [|x l IH]; [auto|]. cbn.
  destruct (p x); cbn; [discriminate|].
  intros H. destruct (IH H) as [-> ->]. auto.
Qed.

(** C7.  The expiry sweep splits the queue by each intent's own deadline:
    the expired intents, and only they, leave the queue and are each
    completed as [Failed], in queue order; the valid ones stay in their
    order; the result is the number of intents left and whether one was
    removed.  When none is expired the queue and the trace are as before.
    ([now] is the time that the deadline tests of this sweep read.) *)
Theorem C7_expiry_sweep_partitions (E : Env) (fuel : nat) (w : World) (now : Z) :
  queue_fresh w ->
  (forall r, (reads w <= r < reads w + length (_aTB_queuedPendingTransmits w))%nat ->
             clock E r = now) ->
  let q := _aTB_queuedPendingTransmits w in
  let removed := filter (expired_at now) q in
  let kept := filter (fun ti => negb (expired_at now ti)) q in
  exists w',
    _complete_expired_intents E fuel w
    = Some ((Z.of_nat (length kept), existsb (expired_at now) q), w')
    /\ _aTB_queuedPendingTransmits w' = kept
    /\ trace w' = trace w ++ sweep_events removed
    /\ (existsb (expired_at now) q = false ->
        _aTB_queuedPendingTransmits w' = q /\ trace w' = trace w)
    /\ _aTB_numPendingTransmits w' = _aTB_numPendingTransmits w
    /\ _aTB_processing w' = _aTB_processing w
    /\ _aTB_sending w' = _aTB_sending w
    /\ inflight w' = inflight w.
Proof.
  intros Hq Hc. cbv zeta.
  exists (sweep_world E w).
  unfold _complete_expired_intents. rewrite (sweep_eq E _ _ w Hq).
  unfold sweep_result, sweep_world.
  pose proof (sweep_split_still (clock E) now _ (reads w) Hc) as Hs.
  destruct (sweep_split (clock E) (reads w) (_aTB_queuedPendingTransmits w))
    as [[yes no] r] eqn:Hsp.
  cbn [fst] in Hs. injection Hs as -> ->.
  cbn [_aTB_queuedPendingTransmits trace set_trace set_queuedPendingTransmits
       _aTB_numPendingTransmits _aTB_processing _aTB_sending inflight
       set_reads reads].
  rewrite <- filter_nil_existsb.
  repeat split; try reflexivity.
  - apply filter_none. rewrite <- filter_nil_existsb. exact H.
  - destruct (filter (expired_at now) (_aTB_queuedPendingTransmits w));
      [cbn; apply app_nil_r | discriminate].
Qed.

Lemma C7_witness :
  exists w',
    _complete_expired_intents still_env 1
      (set_queuedPendingTransmits
         [queued 1 (until 0); queued 2 forever; queued 3 (until (-1));
          queued 4 (until 9)] init_world)
    = Some ((2, true), w')
    /\ _aTB_queuedPendingTransmits w' = [queued 2 forever; queued 4 (until 9)]
    /\ trace w' = [EvLog (LogTimedOut 1); EvTxDone 1 Failed;
                   EvLog (LogTimedOut 3); EvTxDone 3 Failed].
Proof.
  destruct (C7_expiry_sweep_partitions still_env 1
              (set_queuedPendingTransmits
                 [queued 1 (until 0); queued 2 forever; queued 3 (until (-1));
                  queued 4 (until 9)] init_world) 0)
    as (w' & H1 & H2 & H3 & _).
  - repeat constructor.
  - reflexivity.
  - exists w'. repeat split; assumption.
Defined.

(* ----------------------------------------------------------------- *)
(** *** ExpirationTimer comparisons *)

(** C10 as stated fails for a timer that never expires: it is not greater
    than itself. *)
Lemma C10_counterexample :
  Timing.__gt__ forever forever = false
  /\ fst (Timing.__eq__ (fun _ => 0) forever forever O) = Returns true.
Proof. split; reflexivity. Qed.

(** C10, amended.  [__gt__] is the negation of [__lt__] unless both timers
    never expire, in which case it is false.  So a timer with an expiry time
    is greater than itself, and two timers with the same expiry time are
    both equal and greater than one another; [>] is not a strict order. *)
Theorem C10_gt_not_strict :
  (forall a b, Timing._time_to_quit a <> None \/ Timing._time_to_quit b <> None ->
               Timing.__gt__ a b = negb (Timing.__lt__ a b))
  /\ (forall a b, Timing._time_to_quit a = None -> Timing._time_to_quit b = None ->
                  Timing.__gt__ a b = false)
  /\ (forall a q, Timing._time_to_quit a = Some q -> Timing.__gt__ a a = true)
  /\ (forall clock r a b q,
         Timing._time_to_quit a = Some q -> Timing._time_to_quit b = Some q ->
         fst (Timing.__eq__ clock a b r) = Returns true
         /\ Timing.__gt__ a b = true).
Proof.
  repeat split.
  - intros a b H. unfold Timing.__gt__.
    destruct (Timing._time_to_quit a) eqn:Ha, (Timing._time_to_quit b) eqn:Hb;
      try reflexivity.
    destruct H as [H|H]; contradiction.
  - intros a b Ha Hb. unfold Timing.__gt__. rewrite Ha, Hb. reflexivity.
  - intros a q Ha. unfold Timing.__gt__, Timing.__lt__. rewrite Ha.
    rewrite Z.ltb_irrefl. reflexivity.
  - unfold Timing.__eq__. rewrite H, H0. rewrite Z.eqb_refl. reflexivity.
  - unfold Timing.__gt__, Timing.__lt__. rewrite H, H0.
    rewrite Z.ltb_irrefl. reflexivity.
Qed.

Lemma C10_witness :
  Timing.__gt__ (until 5) (until 5) = true
  /\ fst (Timing.__eq__ (fun _ => 0) (until 5) (until 5) O) = Returns true.
Proof.
  split.
  - exact (proj1 (proj2 (proj2 C10_gt_not_strict)) (until 5) 5 eq_refl).
  - exact (proj1 (proj2 (proj2 (proj2 C10_gt_not_strict))
                    (fun _ => 0) O (until 5) (until 5) 5 eq_refl eq_refl)).
Defined.

(* ----------------------------------------------------------------- *)
(** *** Counting in traces and queues *)

Lemma fired_app id a b : fired id (a ++ b) = (fired id a + fired id b)%nat.
Proof.
  induction a as [|e a IH]; [reflexivity|].
  cbn. destruct e; try exact IH.
  destruct (Nat.eqb id0 id); cbn; rewrite IH; reflexivity.
Qed.

Lemma interrupts_app a b :
  interrupts (a ++ b) = (interrupts a + interrupts b)%nat.
Proof.
  induction a as [|e a IH]; [reflexivity|].
  cbn. destruct e; cbn; rewrite ?IH; reflexivity.
Qed.

Lemma transport_entries_app a b :
  transport_entries (a ++ b) = transport_entries a ++ transport_entries b.
Proof.
  induction a as [|e a IH]; [reflexivity|].
  cbn. destruct e; cbn; rewrite ?IH; reflexivity.
Qed.

Lemma transmitted_app id a b :
  transmitted id (a ++ b) = transmitted id a || transmitted id b.
Proof.
  induction a as [|e a IH]; [reflexivity|].
  cbn. destruct e; cbn; rewrite ?IH; try reflexivity.
  rewrite orb_assoc. reflexivity.
Qed.

Lemma occ_app id a b : occ id (a ++ b) = (occ id a + occ id b)%nat.
Proof.
  induction a as [|x a IH]; [reflexivity|].
  cbn. destruct (Nat.eqb (ident x) id); cbn; rewrite IH; reflexivity.
Qed.

Lemma fired_sweep_events id l : fired id (sweep_events l) = occ id l.
Proof.
  unfold sweep_events. induction l as [|x l IH]; [reflexivity|].
  cbn. destruct (Nat.eqb (ident x) id); rewrite IH; reflexivity.
Qed.

Lemma interrupts_sweep_events l : interrupts (sweep_events l) = O.
Proof. induction l as [|x l IH]; [reflexivity|exact IH]. Qed.

Lemma transport_entries_sweep_events l : transport_entries (sweep_events l) = [].
Proof. induction l as [|x l IH]; [reflexivity|exact IH]. Qed.

Lemma transmitted_sweep_events id l : transmitted id (sweep_events l) = false.
Proof. induction l as [|x l IH]; [reflexivity|exact IH]. Qed.

Lemma sweep_split_occ id clock q : forall r,
  occ id q = (occ id (fst (fst (sweep_split clock r q)))
              + occ id (snd (fst (sweep_split clock r q))))%nat.
Proof.
  induction q as [|x t IH]; intros r; [reflexivity|].
  cbn [sweep_split].
  destruct (Timing.expired clock (quitTime x) r) as [b r1].
  specialize (IH r1).
  destruct (sweep_split clock r1 t) as [[yes no] r2]. cbn [fst snd] in IH.
  destruct b; cbn; destruct (Nat.eqb (ident x) id); lia.
Qed.

Lemma sweep_split_length clock q : forall r,
  length q = (length (fst (fst (sweep_split clock r q)))
              + length (snd (fst (sweep_split clock r q))))%nat.
Proof.
  induction q as [|x t IH]; intros r; [reflexivity|].
  cbn [sweep_split].
  destruct (Timing.expired clock (quitTime x) r) as [b r1].
  specialize (IH r1).
  destruct (sweep_split clock r1 t) as [[yes no] r2]. cbn [fst snd] in IH.
  destruct b; cbn; lia.
Qed.

Lemma sweep_split_reads clock q : forall r,
  (r <= snd (sweep_split clock r q))%nat.
Proof.
  induction q as [|x t IH]; intros r; [cbn; lia|].
  cbn [sweep_split].
  pose proof (expired_reads clock (quitTime x) r) as Hr.
  destruct (Timing.expired clock (quitTime x) r) as [b r1]. cbn in Hr.
  specialize (IH r1).
  destruct (sweep_split clock r1 t) as [[yes no] r2]. cbn [fst snd] in IH.
  destruct b; cbn; destruct Hr; subst; lia.
Qed.

Lemma never_expires_mono clock r r' ti :
  (r <= r')%nat -> never_expires_from clock r ti -> never_expires_from clock r' ti.
Proof.
  unfold never_expires_from. destruct (Timing._time_to_quit (quitTime ti)); auto.
  intros H H1 r2 H2. apply H1. lia.
Qed.

Lemma sweep_split_never clock q : forall r,
  Forall (never_expires_from clock r) q ->
  fst (sweep_split clock r q) = ([], q).
Proof.
  induction q as [|x t IH]; intros r H; [reflexivity|].
  inversion H as [|? ? Hx Ht]; subst.
  cbn [sweep_split].
  pose proof (expired_reads clock (quitTime x) r) as Hr.
  assert (Hb : fst (Timing.expired clock (quitTime x) r) = false).
  { unfold Timing.expired. unfold never_expires_from in Hx.
    destruct (Timing._time_to_quit (quitTime x)); [|reflexivity].
    cbn. apply Z.leb_gt. apply Hx. lia. }
  destruct (Timing.expired clock (quitTime x) r) as [b r1]. cbn in Hr, Hb.
  subst b.
  assert (Ht' : Forall (never_expires_from clock r1) t).
  { eapply Forall_impl; [|exact Ht]. intros a. apply never_expires_mono.
    destruct Hr; subst; lia. }
  specialize (IH r1 Ht').
  destruct (sweep_split clock r1 t) as [[yes no] r2]. cbn in IH.
  injection IH as -> ->. reflexivity.
Qed.

(* ----------------------------------------------------------------- *)
(** *** What a sweep leaves alone *)

Section SweepFacts.
Variable E : Env.

Lemma sweep_world_fields w :
  _aTB_numPendingTransmits (sweep_world E w) = _aTB_numPendingTransmits w
  /\ _aTB_processing (sweep_world E w) = _aTB_processing w
  /\ _aTB_sending (sweep_world E w) = _aTB_sending w
  /\ _aTB_rx_pause_enabled (sweep_world E w) = _aTB_rx_pause_enabled w
  /\ _aTB_interrupted (sweep_world E w) = _aTB_interrupted w
  /\ inflight (sweep_world E w) = inflight w.
Proof.
  unfold sweep_world.
  destruct (sweep_split (clock E) (reads w) (_aTB_queuedPendingTransmits w))
    as [[yes no] r].
  repeat split; reflexivity.
Qed.

Lemma sweep_world_queue w :
  _aTB_queuedPendingTransmits (sweep_world E w)
  = snd (fst (sweep_split (clock E) (reads w) (_aTB_queuedPendingTransmits w))).
Proof.
  unfold sweep_world.
  destruct (sweep_split (clock E) (reads w) (_aTB_queuedPendingTransmits w))
    as [[yes no] r]. reflexivity.
Qed.

Lemma sweep_world_trace w :
  trace (sweep_world E w)
  = trace w ++ sweep_events
      (fst (fst (sweep_split (clock E) (reads w) (_aTB_queuedPendingTransmits w)))).
Proof.
  unfold sweep_world.
  destruct (sweep_split (clock E) (reads w) (_aTB_queuedPendingTransmits w))
    as [[yes no] r]. reflexivity.
Qed.

Lemma sweep_world_reads w :
  reads (sweep_world E w)
  = snd (sweep_split (clock E) (reads w) (_aTB_queuedPendingTransmits w)).
Proof.
  unfold sweep_world.
  destruct (sweep_split (clock E) (reads w) (_aTB_queuedPendingTransmits w))
    as [[yes no] r]. reflexivity.
Qed.

Lemma sweep_world_fresh w : queue_fresh w -> queue_fresh (sweep_world E w).
Proof.
  unfold queue_fresh. intros H. rewrite sweep_world_queue.
  apply sweep_split_Forall. exact H.
Qed.

Lemma sweep_world_length w :
  (length (_aTB_queuedPendingTransmits (sweep_world E w))
   <= length (_aTB_queuedPendingTransmits w))%nat.
Proof.
  rewrite sweep_world_queue.
  rewrite (sweep_split_length (clock E) (_aTB_queuedPendingTransmits w) (reads w)).
  lia.
Qed.

(** A sweep that reports a removal shortens the queue. *)
Lemma sweep_world_shorter w :
  snd (sweep_result E w) = true ->
  (length (_aTB_queuedPendingTransmits (sweep_world E w))
   < length (_aTB_queuedPendingTransmits w))%nat.
Proof.
  rewrite sweep_world_queue. unfold sweep_result.
  rewrite (sweep_split_length (clock E) (_aTB_queuedPendingTransmits w) (reads w)).
  destruct (sweep_split (clock E) (reads w) (_aTB_queuedPendingTransmits w))
    as [[yes no] r]. cbn.
  destruct yes; cbn; [discriminate|lia].
Qed.

Lemma sweep_world_owned w id : owned (sweep_world E w) id = owned w id.
Proof.
  unfold owned. rewrite sweep_world_trace, sweep_world_queue.
  destruct (sweep_world_fields w) as (_ & _ & _ & _ & _ & ->).
  rewrite fired_app, fired_sweep_events.
  rewrite (sweep_split_occ id (clock E) (_aTB_queuedPendingTransmits w) (reads w)).
  lia.
Qed.

Lemma sweep_world_never w :
  Forall (never_expires_from (clock E) (reads w)) (_aTB_queuedPendingTransmits w) ->
  _aTB_queuedPendingTransmits (sweep_world E w) = _aTB_queuedPendingTransmits w
  /\ trace (sweep_world E w) = trace w
  /\ snd (sweep_result E w) = false.
Proof.
  intros H. rewrite sweep_world_queue, sweep_world_trace. unfold sweep_result.
  pose proof (sweep_split_never _ _ _ H) as Hs.
  destruct (sweep_split (clock E) (reads w) (_aTB_queuedPendingTransmits w))
    as [[yes no] r]. cbn in Hs. injection Hs as -> ->.
  cbn. rewrite app_nil_r. auto.
Qed.

Lemma swept_trans w1 w2 w3 : swept E w1 w2 -> swept E w2 w3 -> swept E w1 w3.
Proof.
  induction 1; intros H3; [exact H3|]. apply swept_step. auto.
Qed.

Lemma swept_fields w w' :
  swept E w w' ->
  _aTB_numPendingTransmits w' = _aTB_numPendingTransmits w
  /\ _aTB_processing w' = _aTB_processing w
  /\ _aTB_sending w' = _aTB_sending w
  /\ _aTB_rx_pause_enabled w' = _aTB_rx_pause_enabled w
  /\ _aTB_interrupted w' = _aTB_interrupted w
  /\ inflight w' = inflight w.
Proof.
  induction 1 as [w|w w' _ IH]; [repeat split; reflexivity|].
  destruct IH as (-> & -> & -> & -> & -> & ->). apply sweep_world_fields.
Qed.

Lemma swept_fresh w w' : swept E w w' -> queue_fresh w -> queue_fresh w'.
Proof.
  induction 1 as [w|w w' _ IH]; [auto|].
  intros H. apply IH. apply sweep_world_fresh. exact H.
Qed.

Lemma swept_length w w' :
  swept E w w' ->
  (length (_aTB_queuedPendingTransmits w')
   <= length (_aTB_queuedPendingTransmits w))%nat.
Proof.
  induction 1 as [w|w w' _ IH]; [lia|].
  pose proof (sweep_world_length w). lia.
Qed.

Lemma swept_reads w w' : swept E w w' -> (reads w <= reads w')%nat.
Proof.
  induction 1 as [w|w w' _ IH]; [lia|].
  rewrite sweep_world_reads in IH.
  pose proof (sweep_split_reads (clock E) (_aTB_queuedPendingTransmits w) (reads w)).
  lia.
Qed.

Lemma swept_never w w' :
  swept E w w' ->
  Forall (never_expires_from (clock E) (reads w)) (_aTB_queuedPendingTransmits w) ->
  _aTB_queuedPendingTransmits w' = _aTB_queuedPendingTransmits w
  /\ trace w' = trace w.
Proof.
  induction 1 as [w|w w' _ IH]; [auto|].
  intros H. destruct (sweep_world_never w H) as (Hq & Ht & _).
  rewrite <- Hq, <- Ht. apply IH. rewrite Hq.
  eapply Forall_impl; [|exact H]. intros a. apply never_expires_mono.
  rewrite sweep_world_reads. apply sweep_split_reads.
Qed.

Lemma swept_core w w' : swept E w w' -> queue_fresh w -> core_steps E w w'.
Proof.
  induction 1 as [w|w w' _ IH]; intros H; [apply steps_refl|].
  eapply steps_step; [apply step_sweep; exact H|].
  apply IH. apply sweep_world_fresh. exact H.
Qed.

(** The sweeps of [_runQueued]. *)
Section Phase.
Variable rq : bool -> M bool.
Variable k : nat.

Lemma sweep_until_stable_partial n : forall e w w',
  queue_fresh w ->
  sweep_until_stable E rq k n e w = Some (tt, w') -> swept E w w'.
Proof.
  induction n as [|n IH]; intros e w w' Hq H.
  - destruct e; cbn in H; [discriminate|]. injection H as <-. apply swept_refl.
  - destruct e; cbn [sweep_until_stable] in H.
    + unfold bind in H. rewrite (sweep_eq E rq k w Hq) in H.
      apply swept_step. eapply IH; [|exact H].
      apply sweep_world_fresh; exact Hq.
    + injection H as <-. apply swept_refl.
Qed.

Lemma sweep_until_stable_total n : forall e w,
  queue_fresh w ->
  (e = true -> (length (_aTB_queuedPendingTransmits w) < n)%nat) ->
  exists w', sweep_until_stable E rq k n e w = Some (tt, w').
Proof.
  induction n as [|n IH]; intros e w Hq Hn.
  - destruct e; [specialize (Hn eq_refl); lia|]. eexists; reflexivity.
  - destruct e; cbn [sweep_until_stable]; [|eexists; reflexivity].
    unfold bind. rewrite (sweep_eq E rq k w Hq).
    apply IH; [apply sweep_world_fresh; exact Hq|].
    intros He. pose proof (sweep_world_shorter w He).
    specialize (Hn eq_refl). lia.
Qed.

Lemma sweep_all_partial w w' :
  queue_fresh w -> sweep_all E rq k w = Some (tt, w') -> swept E w w'.
Proof.
  intros Hq H. unfold sweep_all, bind in H.
  rewrite (sweep_eq E rq k w Hq) in H.
  apply swept_step. eapply sweep_until_stable_partial; [|exact H].
  apply sweep_world_fresh; exact Hq.
Qed.

Lemma sweep_all_total w :
  queue_fresh w ->
  (length (_aTB_queuedPendingTransmits w) <= k)%nat ->
  exists w', sweep_all E rq k w = Some (tt, w') /\ swept E w w'.
Proof.
  intros Hq Hk.
  assert (H : exists w', sweep_all E rq k w = Some (tt, w')).
  { unfold sweep_all, bind. rewrite (sweep_eq E rq k w Hq).
    apply sweep_until_stable_total; [apply sweep_world_fresh; exact Hq|].
    intros He. pose proof (sweep_world_shorter w He). lia. }
  destruct H as [w' H]. exists w'. split; [exact H|].
  apply sweep_all_partial; assumption.
Qed.

End Phase.
End SweepFacts.

(* ----------------------------------------------------------------- *)
(** *** The critical section of [_runQueued], unfolded *)

Section Unfold.
Variable E : Env.
Variable rq : bool -> M bool.
Variable k : nat.

Lemma submitTransmit_eq x w :
  _submitTransmit_body E rq k x w
  = match transmitActual E (addCallback x) (entered x w) with
    | Some s => tx_done_body E rq k (addCallback x) s (entered x w)
    | None => Some (tt, set_inflight (inflight w ++ [addCallback x])
                          (entered x w))
    end.
Proof.
  unfold _submitTransmit_body, _scheduleTransmitActual_body.
  unfold bind, get, modify, emit. cbn.
  fold (entered x w).
  destruct (transmitActual E (addCallback x) (entered x w)); reflexivity.
Qed.

Lemma tx_done_body_registered x s w :
  callbacks x = 1%nat ->
  tx_done_body E rq k x s w
  = match refill_loop E rq k (completed x s w) with
    | Some (_, w') => Some (tt, w')
    | None => None
    end.
Proof.
  intros H. unfold tx_done_body. rewrite H. cbn [repeatM].
  unfold _async_txdone_body. unfold bind, emit, modify. cbn.
  fold (completed x s w).
  destruct (refill_loop E rq k (completed x s w)) as [[[] w']|]; reflexivity.
Qed.

Lemma submit_next_eq flag w :
  submit_next E rq k flag w
  = if flag || negb (_aTB_processing w) then
      if _aTB_sending w then Some (false, w)
      else match _aTB_queuedPendingTransmits w with
           | [] => Some (false, w)
           | x :: rest =>
               match _submitTransmit_body E rq k x (popped rest w) with
               | Some (_, w2) => Some (true, released w2)
               | None => None
               end
           end
    else Some (false, released w).
Proof.
  unfold submit_next. unfold bind at 1. cbn [get].
  destruct (flag || negb (_aTB_processing w)); [|reflexivity].
  unfold bind at 1. cbn [get].
  destruct (_aTB_sending w); [reflexivity|].
  unfold bind at 1. cbn [get].
  destruct (_aTB_queuedPendingTransmits w) as [|x rest]; [reflexivity|].
  unfold bind, modify. fold (popped rest w).
  destruct (_submitTransmit_body E rq k x (popped rest w)) as [[[] w2]|];
    reflexivity.
Qed.

Lemma refill_loop_S n w :
  refill_loop E rq (S n) w
  = if _aTB_numPendingTransmits w <? MAX_PENDING_TRANSMITS E then
      match rq false w with
      | Some (true, w1) => refill_loop E rq n w1
      | Some (false, w1) => Some (tt, w1)
      | None => None
      end
    else Some (tt, w).
Proof.
  cbn [refill_loop]. unfold bind at 1. unfold _canSendNow. cbn [get].
  destruct (_aTB_numPendingTransmits w <? MAX_PENDING_TRANSMITS E);
    [|reflexivity].
  unfold bind. destruct (rq false w) as [[[] w1]|]; reflexivity.
Qed.

End Unfold.

(* ----------------------------------------------------------------- *)
(** *** Steps of the core keep its invariant *)

Lemma take_inflight_Forall P id l x rest :
  take_inflight id l = Some (x, rest) ->
  Forall P l -> P x /\ Forall P rest.
Proof.
  revert x rest. induction l as [|y l IH]; intros x rest H HF; [discriminate|].
  inversion HF as [|? ? Hy Hl]; subst. cbn in H.
  destruct (Nat.eqb (ident y) id).
  - injection H as <- <-. auto.
  - destruct (take_inflight id l) as [[z r']|]; [|discriminate].
    injection H as <- <-. destruct (IH _ _ eq_refl Hl). auto.
Qed.

Lemma take_inflight_length id l x rest :
  take_inflight id l = Some (x, rest) -> length l = S (length rest).
Proof.
  revert x rest. induction l as [|y l IH]; intros x rest H; [discriminate|].
  cbn in H. destruct (Nat.eqb (ident y) id).
  - injection H as <- <-. reflexivity.
  - destruct (take_inflight id l) as [[z r']|]; [|discriminate].
    injection H as <- <-. cbn. f_equal. eapply IH. reflexivity.
Qed.

Lemma take_inflight_occ id l x rest i :
  take_inflight id l = Some (x, rest) ->
  occ i l = ((if Nat.eqb (ident x) i then 1 else 0) + occ i rest)%nat.
Proof.
  revert x rest. induction l as [|y l IH]; intros x rest H; [discriminate|].
  cbn in H. destruct (Nat.eqb (ident y) id) eqn:Hy.
  - injection H as <- <-. cbn. destruct (Nat.eqb (ident y) i); reflexivity.
  - destruct (take_inflight id l) as [[z r']|]; [|discriminate].
    injection H as <- <-. cbn. rewrite (IH _ _ eq_refl).
    destruct (Nat.eqb (ident y) i), (Nat.eqb (ident z) i); lia.
Qed.

Section StepFacts.
Variable E : Env.

Lemma core_step_WF w w' : core_step E w w' -> WF w -> WF w'.
Proof.
  unfold WF, queue_fresh, inflight_registered.
  intros Hs [Hq Hi]. destruct Hs; cbn; try (split; assumption).
  - split; [apply sweep_world_fresh; exact Hq|].
    destruct (sweep_world_fields E w) as (_ & _ & _ & _ & _ & ->). exact Hi.
  - rewrite H in Hq. inversion Hq; subst. split; [assumption|].
    apply Forall_app. split; [exact Hi|]. constructor; [|constructor].
    cbn. rewrite H0. reflexivity.
  - rewrite H in Hq. inversion Hq; subst. split; assumption.
  - split; [exact Hq|]. eapply take_inflight_Forall; eassumption.
Qed.

Lemma core_steps_WF w w' : core_steps E w w' -> WF w -> WF w'.
Proof.
  induction 1; [auto|]. intros Hw. apply IHcore_steps.
  eapply core_step_WF; eassumption.
Qed.

Lemma core_steps_trans w1 w2 w3 :
  core_steps E w1 w2 -> core_steps E w2 w3 -> core_steps E w1 w3.
Proof.
  induction 1; [auto|]. intros. eapply steps_step; eauto.
Qed.

Lemma core_steps_one w w' : core_step E w w' -> core_steps E w w'.
Proof. intros. eapply steps_step; [eassumption|apply steps_refl]. Qed.

Lemma inert_fired id e : inert e -> fired id [e] = O.
Proof. destruct 1; reflexivity. Qed.

Lemma inert_entries e : inert e -> transport_entries [e] = [].
Proof. destruct 1; reflexivity. Qed.

Lemma inert_interrupts e : inert e -> interrupts [e] = O.
Proof. destruct 1; reflexivity. Qed.

Lemma core_step_Inv f w w' : core_step E w w' -> Inv E f w -> Inv E f w'.
Proof.
  intros Hs [Hq Hi Hc Hm Hl He Ho].
  assert (HW : WF w') by (eapply core_step_WF; [eassumption|split; assumption]).
  destruct HW as [Hq' Hi'].
  destruct Hs.
  - (* sweep *)
    destruct (sweep_world_fields E w) as (En & _ & _ & _ & _ & Ei).
    constructor; try assumption.
    + rewrite En, Ei. exact Hc.
    + rewrite En. exact Hm.
    + intros Hz. specialize (Hl Hz).
      pose proof (sweep_world_length E w). lia.
    + unfold entries_bounded. rewrite sweep_world_trace, transport_entries_app,
        transport_entries_sweep_events, app_nil_r. exact He.
    + intros id. rewrite sweep_world_owned. apply Ho.
  - constructor; assumption.
  - constructor; assumption.
  - constructor; assumption.
  - constructor; try assumption.
    + unfold entries_bounded. cbn. rewrite transport_entries_app,
        (inert_entries _ H), app_nil_r. exact He.
    + intros id. rewrite <- Ho. unfold owned. cbn.
      rewrite fired_app, (inert_fired _ _ H). lia.
  - (* the Transport keeps the intent *)
    constructor; try assumption; cbn.
    + rewrite length_app. cbn. lia.
    + lia.
    + intros Hz. specialize (Hl Hz). rewrite H in Hl. cbn in Hl. lia.
    + unfold entries_bounded. rewrite transport_entries_app. cbn.
      apply Forall_app. split; [exact He|]. constructor; [|constructor].
      cbn. lia.
    + intros id. rewrite <- Ho. unfold owned. cbn. rewrite H.
      rewrite fired_app, occ_app. cbn.
      destruct (Nat.eqb (ident x) id); lia.
  - (* the Transport completes the intent at once *)
    constructor; try assumption; cbn.
    + intros Hz. specialize (Hl Hz). rewrite H in Hl. cbn in Hl. lia.
    + unfold entries_bounded. rewrite transport_entries_app. cbn.
      apply Forall_app. split; [exact He|]. constructor; [|constructor].
      cbn. lia.
    + intros id. rewrite <- Ho. unfold owned. cbn. rewrite H.
      rewrite fired_app. cbn.
      destruct (Nat.eqb (ident x) id); lia.
  - (* the Transport completes an intent that it holds *)
    pose proof (take_inflight_length _ _ _ _ H) as Hlen.
    constructor; try assumption; cbn.
    + rewrite Hlen in Hc. lia.
    + intros Hz. specialize (Hm Hz). lia.
    + unfold entries_bounded. rewrite transport_entries_app. cbn.
      rewrite app_nil_r. exact He.
    + intros id0. rewrite <- Ho. unfold owned. cbn.
      rewrite fired_app. cbn.
      rewrite (take_inflight_occ _ _ _ _ id0 H).
      destruct (Nat.eqb (ident x) id0); lia.
Qed.

Lemma core_steps_Inv f w w' : core_steps E w w' -> Inv E f w -> Inv E f w'.
Proof.
  induction 1; [auto|]. intros Hw. apply IHcore_steps.
  eapply core_step_Inv; eassumption.
Qed.

(** Steps of the core neither touch the interrupt flag and the drain
    switch nor call [interrupt_wait]; they only shorten the queue. *)
Lemma core_step_frame w w' :
  core_step E w w' ->
  _aTB_interrupted w' = _aTB_interrupted w
  /\ _aTB_rx_pause_enabled w' = _aTB_rx_pause_enabled w
  /\ interrupts (trace w') = interrupts (trace w)
  /\ (length (_aTB_queuedPendingTransmits w')
      <= length (_aTB_queuedPendingTransmits w))%nat.
Proof.
  destruct 1; cbn; try (repeat split; try reflexivity; lia).
  - destruct (sweep_world_fields E w) as (_ & _ & _ & -> & -> & _).
    rewrite sweep_world_trace, interrupts_app, interrupts_sweep_events.
    pose proof (sweep_world_length E w). repeat split; lia.
  - rewrite interrupts_app, (inert_interrupts _ H). repeat split; lia.
  - rewrite interrupts_app, H. cbn. repeat split; lia.
  - rewrite interrupts_app, H. cbn. repeat split; lia.
  - rewrite interrupts_app. cbn. repeat split; lia.
Qed.

Lemma core_steps_frame w w' :
  core_steps E w w' ->
  _aTB_interrupted w' = _aTB_interrupted w
  /\ _aTB_rx_pause_enabled w' = _aTB_rx_pause_enabled w
  /\ interrupts (trace w') = interrupts (trace w)
  /\ (length (_aTB_queuedPendingTransmits w')
      <= length (_aTB_queuedPendingTransmits w))%nat.
Proof.
  induction 1 as [w|w1 w2 w3 H1 _ IH]; [repeat split; lia|].
  destruct (core_step_frame _ _ H1) as (<- & <- & <- & ?).
  destruct IH as (-> & -> & -> & ?). repeat split; lia.
Qed.

End StepFacts.

(* ----------------------------------------------------------------- *)
(** *** The functions only make steps of the core *)

Section Refinement.
Variable E : Env.

Lemma WF_head w x rest :
  WF w -> _aTB_queuedPendingTransmits w = x :: rest -> callbacks x = O.
Proof.
  intros [Hq _] H. unfold queue_fresh in Hq. rewrite H in Hq.
  inversion Hq; assumption.
Qed.

Lemma completed_entered x s rest w :
  completed (addCallback x) s (entered x (popped rest w))
  = mkWorld (_aTB_numPendingTransmits w) true true rest
      (_aTB_rx_pause_enabled w) (_aTB_interrupted w) (reads w) (inflight w)
      (trace w ++ [EvTransmitActual (ident x) (_aTB_numPendingTransmits w + 1)
                     true true;
                   EvTxDone (ident x) s]).
Proof.
  destruct w.
  lazy beta iota delta [completed entered popped set_numPendingTransmits
    set_trace set_queuedPendingTransmits set_sending set_processing
    _aTB_numPendingTransmits _aTB_processing _aTB_sending
    _aTB_queuedPendingTransmits _aTB_rx_pause_enabled _aTB_interrupted
    reads inflight trace addCallback ident].
  f_equal; [lia|]. rewrite <- app_assoc. reflexivity.
Qed.

Lemma refill_refines rq n : refines E rq -> forall w w',
  WF w -> refill_loop E rq n w = Some (tt, w') -> core_steps E w w'.
Proof.
  intros Hrq. induction n as [|n IH]; intros w w' HW H; [discriminate|].
  rewrite refill_loop_S in H.
  destruct (_aTB_numPendingTransmits w <? MAX_PENDING_TRANSMITS E) eqn:Hc.
  - apply Z.ltb_lt in Hc.
    destruct (rq false w) as [[[] w1]|] eqn:Hr; [| |discriminate].
    + pose proof (Hrq _ _ _ _ HW Hc Hr) as H1.
      eapply core_steps_trans; [exact H1|].
      apply IH; [|exact H]. eapply core_steps_WF; eassumption.
    + injection H as <-. eapply Hrq; eassumption.
  - injection H as <-. apply steps_refl.
Qed.

Lemma released_steps w : core_steps E w (released w).
Proof.
  unfold released.
  eapply steps_step; [apply (step_sending E false)|].
  apply core_steps_one. apply step_processing.
Qed.

Lemma body_refines rq k : refines E rq -> refines E (_runQueued_body E rq k).
Proof.
  intros Hrq flag w b w' HW Hn H.
  unfold _runQueued_body in H. minv H. destruct a.
  pose proof (sweep_all_partial E rq k _ _ (proj1 HW) Hm) as Hsw.
  pose proof (swept_core E _ _ Hsw (proj1 HW)) as Hsteps.
  pose proof (core_steps_WF E _ _ Hsteps HW) as HW1.
  destruct (swept_fields E _ _ Hsw) as (En & _).
  eapply core_steps_trans; [exact Hsteps|]. clear Hm Hsw Hsteps.
  rewrite submit_next_eq in H.
  destruct (flag || negb (_aTB_processing w0)).
  2:{ injection H as _ <-. apply released_steps. }
  destruct (_aTB_sending w0); [injection H as _ <-; apply steps_refl|].
  destruct (_aTB_queuedPendingTransmits w0) as [|x rest] eqn:Hq;
    [injection H as _ <-; apply steps_refl|].
  pose proof (WF_head _ _ _ HW1 Hq) as Hx.
  rewrite submitTransmit_eq in H.
  (* the two flags are set, then the head is submitted *)
  eapply steps_step; [apply (step_processing E true)|].
  eapply steps_step; [apply (step_sending E true)|].
  set (wq := set_sending true (set_processing true w0)).
  assert (Hqq : _aTB_queuedPendingTransmits wq = x :: rest) by exact Hq.
  assert (Hnq : _aTB_numPendingTransmits wq < MAX_PENDING_TRANSMITS E)
    by (cbn; lia).
  destruct (transmitActual E (addCallback x) (entered x (popped rest w0)))
    as [s|].
  - rewrite tx_done_body_registered in H by (cbn; rewrite Hx; reflexivity).
    destruct (refill_loop E rq k
                (completed (addCallback x) s (entered x (popped rest w0))))
      as [[[] w2]|] eqn:Hrf; [|discriminate].
    injection H as _ <-.
    rewrite completed_entered in Hrf.
    pose proof (step_submit_done E x rest s wq Hqq Hx Hnq) as Hst.
    cbn in Hst.
    eapply steps_step; [exact Hst|].
    eapply core_steps_trans; [|apply released_steps].
    eapply refill_refines; [exact Hrq| |exact Hrf].
    eapply core_step_WF; [exact Hst|].
    eapply core_steps_WF; [|exact HW1].
    eapply steps_step; [apply (step_processing E true)|].
    apply core_steps_one. apply (step_sending E true).
  - injection H as _ <-.
    pose proof (step_submit_keep E x rest wq Hqq Hx Hnq) as Hst.
    eapply steps_step; [exact Hst|]. exact (released_steps _).
Qed.

Lemma runQueued_refines fuel : refines E (_runQueued E fuel).
Proof.
  induction fuel as [|n IH].
  - intros flag w b w' _ _ H. discriminate.
  - cbn [_runQueued]. apply body_refines. exact IH.
Qed.

Lemma sweep_refines fuel w r w' :
  WF w -> _complete_expired_intents E fuel w = Some (r, w') ->
  core_steps E w w' /\ w' = sweep_world E w /\ r = sweep_result E w.
Proof.
  intros HW H. unfold _complete_expired_intents in H.
  rewrite (sweep_eq E _ _ w (proj1 HW)) in H. injection H as <- <-.
  split; [|auto]. apply core_steps_one. apply step_sweep. exact (proj1 HW).
Qed.

Lemma transport_complete_refines fuel id s w w' :
  WF w -> transport_complete E fuel id s w = Some (tt, w') ->
  core_steps E w w'.
Proof.
  intros HW H. unfold transport_complete in H.
  unfold bind at 1 in H. cbn [get] in H.
  destruct (take_inflight id (inflight w)) as [[x rest]|] eqn:Ht.
  - unfold bind, modify in H. unfold tx_done in H.
    destruct (take_inflight_Forall _ _ _ _ _ Ht (proj2 HW)) as [Hx _].
    rewrite (tx_done_body_registered E _ _ _ _ _ Hx) in H.
    destruct (refill_loop E (_runQueued E fuel) fuel
                (completed x s (set_inflight rest w)))
      as [[[] w2]|] eqn:Hrf; [|discriminate].
    injection H as <-.
    pose proof (step_complete E id s x rest w Ht) as Hst.
    eapply steps_step; [exact Hst|].
    eapply refill_refines; [apply runQueued_refines| |exact Hrf].
    eapply core_step_WF; [exact Hst|exact HW].
  - injection H as <-. apply steps_refl.
Qed.

Lemma emit_inert_step e w : inert e -> core_steps E w (set_trace (trace w ++ [e]) w).
Proof. intros. apply core_steps_one. apply step_emit. assumption. Qed.

Lemma liftC_refines {A} (c : Timing.Clocked A) w a w' :
  liftC c w = Some (a, w') ->
  core_steps E w w' /\ a = fst (c (reads w)) /\ w' = set_reads (snd (c (reads w))) w.
Proof.
  unfold liftC. destruct (c (reads w)) as [a' r]. intros [= <- <-].
  split; [|auto]. apply core_steps_one. apply step_reads.
Qed.

(** The drain loop ends at once: with the depth at or below the threshold
    its condition is false, otherwise entering its [with] block raises. *)
Lemma drain_loop_inv fuel n t v w x w' :
  drain_loop E fuel n t v w = Some (x, w') ->
  w' = w
  /\ x = if QUEUE_TRANSMIT_UNBLOCK_THRESHOLD E <? v
         then Raises TypeError else Returns ExitThreshold.
Proof.
  destruct n as [|n]; cbn [drain_loop]; unfold Timing.enter_context;
    destruct (QUEUE_TRANSMIT_UNBLOCK_THRESHOLD E <? v); intros H;
    try discriminate; injection H as <- <-; auto.
Qed.

Lemma drain_loop_S fuel n t v w :
  drain_loop E fuel (S n) t v w
  = Some (if QUEUE_TRANSMIT_UNBLOCK_THRESHOLD E <? v
          then Raises TypeError else Returns ExitThreshold, w).
Proof.
  cbn [drain_loop]. unfold Timing.enter_context.
  destruct (QUEUE_TRANSMIT_UNBLOCK_THRESHOLD E <? v); reflexivity.
Qed.

Lemma drain_refines fuel d w x w' :
  WF w -> _drain_tx_queue_if_needed E fuel d w = Some (x, w') ->
  core_steps E w w'.
Proof.
  intros HW H. unfold _drain_tx_queue_if_needed in H.
  minv H. destruct (sweep_refines _ _ _ _ HW Hm) as (S1 & _ & _).
  pose proof (core_steps_WF E _ _ S1 HW) as HW1.
  eapply core_steps_trans; [exact S1|]. clear Hm S1.
  unfold bind at 1 in H. cbn [get] in H.
  destruct ((MAX_QUEUED_TRANSMITS E <=? fst a) && _aTB_rx_pause_enabled w0);
    [|injection H as _ <-; apply steps_refl].
  minv H. destruct (liftC_refines _ _ _ _ Hm) as (S2 & _ & _).
  eapply core_steps_trans; [exact S2|]. clear Hm S2.
  unfold bind at 1 in H. rewrite emit_eq in H.
  eapply core_steps_trans;
    [apply (emit_inert_step (EvLog LogEnteringTxOnly)); constructor|].
  minv H. destruct (drain_loop_inv _ _ _ _ _ _ _ Hm) as [-> ->].
  destruct (QUEUE_TRANSMIT_UNBLOCK_THRESHOLD E <? fst a).
  - injection H as _ <-. apply steps_refl.
  - unfold bind in H. rewrite emit_eq in H. injection H as _ <-.
    apply emit_inert_step. constructor.
Qed.

End Refinement.

(* ----------------------------------------------------------------- *)
(** *** Admission *)

Section Admission.
Variable E : Env.

Lemma tx_done_fresh fuel ti s w :
  callbacks ti = O ->
  tx_done E fuel ti s w
  = Some (tt, set_trace (trace w ++ [EvTxDone (ident ti) s]) w).
Proof. apply tx_done_body_fresh. Qed.

Lemma queue_tx_eq fuel ti w :
  callbacks ti = O ->
  _queue_tx E fuel ti w
  = if Z.of_nat (length (_aTB_queuedPendingTransmits w))
       <? DROP_TRANSMITS_LEVEL E
    then Some (true, set_queuedPendingTransmits
                       (_aTB_queuedPendingTransmits w ++ [ti]) w)
    else Some (false,
               set_trace (trace w ++ [EvLog LogDroppingTX;
                                      EvTxDone (ident ti) Failed]) w).
Proof.
  intros H. unfold _queue_tx, bind, _qtx.
  destruct (Z.of_nat (length (_aTB_queuedPendingTransmits w))
            <? DROP_TRANSMITS_LEVEL E); [reflexivity|].
  rewrite emit_eq, (tx_done_fresh _ _ _ _ H).
  destruct w; cbn. rewrite <- app_assoc. reflexivity.
Qed.

(** What [_schedulePreparedIntent] does with a new intent before it turns
    to the queue. *)
Lemma admit_prepared_eq fuel ti w :
  callbacks ti = O ->
  admit_prepared E fuel ti w
  = if is_nil (serMsg ti) then
      Some (false, set_trace (trace w ++ [EvTxDone (ident ti) Sent]) w)
    else if is_UpdateWork (message ti) then
      Some (true, set_interrupted false
                    (set_trace (trace w ++ [EvTxDone (ident ti) Sent]) w))
    else if Z.of_nat (length (_aTB_queuedPendingTransmits w))
            <? DROP_TRANSMITS_LEVEL E
    then Some (true, set_queuedPendingTransmits
                       (_aTB_queuedPendingTransmits w ++ [ti]) w)
    else Some (false,
               set_trace (trace w ++ [EvLog LogDroppingTX;
                                      EvTxDone (ident ti) Failed]) w).
Proof.
  intros H. unfold admit_prepared.
  destruct (is_nil (serMsg ti)).
  - unfold bind. rewrite (tx_done_fresh _ _ _ _ H). reflexivity.
  - destruct (is_UpdateWork (message ti)).
    + unfold bind. rewrite (tx_done_fresh _ _ _ _ H). reflexivity.
    + apply queue_tx_eq. exact H.
Qed.

Lemma Inv_ext f g w : (forall id, f id = g id) -> Inv E f w -> Inv E g w.
Proof.
  intros Hfg [Hq Hi Hc Hm Hl He Ho]. constructor; try assumption.
  intros id. rewrite <- Hfg. apply Ho.
Qed.

Lemma Inv_fire f id s w :
  Inv E f w ->
  Inv E (accept id f) (set_trace (trace w ++ [EvTxDone id s]) w).
Proof.
  intros [Hq Hi Hc Hm Hl He Ho]. constructor; try assumption.
  - unfold entries_bounded. cbn. rewrite transport_entries_app. cbn.
    rewrite app_nil_r. exact He.
  - intros i. unfold accept. rewrite <- Ho. unfold owned. cbn.
    rewrite fired_app. cbn. destruct (Nat.eqb id i); lia.
Qed.

Lemma Inv_emit f e w :
  inert e -> Inv E f w -> Inv E f (set_trace (trace w ++ [e]) w).
Proof.
  intros He Hw. eapply core_step_Inv; [|exact Hw]. apply step_emit. exact He.
Qed.

Lemma Inv_interrupted f b w : Inv E f w -> Inv E f (set_interrupted b w).
Proof. intros [Hq Hi Hc Hm Hl He Ho]. constructor; assumption. Qed.

Lemma Inv_rx f b w : Inv E f w -> Inv E f (set_rx_pause_enabled b w).
Proof. intros [Hq Hi Hc Hm Hl He Ho]. constructor; assumption. Qed.

Lemma Inv_event f e w :
  (forall id, fired id [e] = O) -> transport_entries [e] = [] ->
  Inv E f w -> Inv E f (set_trace (trace w ++ [e]) w).
Proof.
  intros Hf Ht [Hq Hi Hc Hm Hl He Ho]. constructor; try assumption.
  - unfold entries_bounded. cbn. rewrite transport_entries_app, Ht.
    rewrite app_nil_r. exact He.
  - intros i. rewrite <- Ho. unfold owned. cbn. rewrite fired_app, Hf. lia.
Qed.

Lemma Inv_enqueue f ti w :
  callbacks ti = O ->
  Z.of_nat (length (_aTB_queuedPendingTransmits w)) < DROP_TRANSMITS_LEVEL E ->
  Inv E f w ->
  Inv E (accept (ident ti) f)
      (set_queuedPendingTransmits (_aTB_queuedPendingTransmits w ++ [ti]) w).
Proof.
  intros Hc0 Hlt [Hq Hi Hc Hm Hl He Ho]. constructor; try assumption.
  - unfold queue_fresh. cbn. apply Forall_app. split; [exact Hq|].
    constructor; [exact Hc0|constructor].
  - cbn. intros _. rewrite length_app. cbn. lia.
  - intros i. unfold accept. rewrite <- Ho. unfold owned. cbn.
    rewrite occ_app. cbn. destruct (Nat.eqb (ident ti) i); lia.
Qed.

Lemma Inv_WF f w : Inv E f w -> WF w.
Proof. intros [Hq Hi _ _ _ _ _]. split; assumption. Qed.

Lemma admit_prepared_Inv f fuel ti w go w' :
  callbacks ti = O -> Inv E f w ->
  admit_prepared E fuel ti w = Some (go, w') ->
  Inv E (accept (ident ti) f) w'.
Proof.
  intros Hc Hw H. rewrite (admit_prepared_eq _ _ _ Hc) in H.
  destruct (is_nil (serMsg ti)); [injection H as _ <-; apply Inv_fire, Hw|].
  destruct (is_UpdateWork (message ti)).
  { injection H as _ <-. apply Inv_interrupted, Inv_fire, Hw. }
  destruct (Z.of_nat (length (_aTB_queuedPendingTransmits w))
            <? DROP_TRANSMITS_LEVEL E) eqn:Hlt; injection H as _ <-.
  - apply Z.ltb_lt in Hlt. apply Inv_enqueue; assumption.
  - assert (Heq : set_trace (trace w ++ [EvLog LogDroppingTX;
                                         EvTxDone (ident ti) Failed]) w
                  = set_trace (trace (set_trace (trace w ++ [EvLog LogDroppingTX]) w)
                               ++ [EvTxDone (ident ti) Failed])
                      (set_trace (trace w ++ [EvLog LogDroppingTX]) w)).
    { destruct w; cbn. rewrite <- app_assoc. reflexivity. }
    rewrite Heq. apply Inv_fire. apply Inv_emit; [constructor|exact Hw].
Qed.

(** The throttle block only makes steps of the core. *)
Lemma throttle_refines fuel ti flag w r w' :
  WF w -> throttle E fuel ti flag w = Some (r, w') -> core_steps E w w'.
Proof.
  intros HW H. unfold throttle in H.
  unfold bind at 1 in H. unfold _canSendNow in H. cbn [get] in H.
  destruct (_aTB_numPendingTransmits w <? MAX_PENDING_TRANSMITS E);
    [injection H as _ <-; apply steps_refl|].
  minv H.
  assert (S1 : core_steps E w w0).
  { destruct flag; [injection Hm as _ <-; apply steps_refl|].
    unfold _exclusively_processing in Hm.
    destruct (_aTB_processing w); injection Hm as _ <-;
      [apply steps_refl|]. apply core_steps_one, step_processing. }
  pose proof (core_steps_WF E _ _ S1 HW) as HW1.
  eapply core_steps_trans; [exact S1|]. clear Hm S1.
  minv H.
  assert (S2 : core_steps E w0 w1).
  { destruct a; [|injection Hm as _ <-; apply steps_refl].
    unfold bind at 1 in Hm. cbn [get] in Hm.
    destruct (_aTB_sending w0).
    - unfold bind, ret, _not_processing, modify in Hm.
      injection Hm as _ <-. apply core_steps_one, step_processing.
    - unfold bind, ret, _not_processing, modify in Hm.
      injection Hm as _ <-.
      eapply steps_step; [apply (step_sending E true)|].
      apply core_steps_one, step_processing. }
  pose proof (core_steps_WF E _ _ S2 HW1) as HW2.
  eapply core_steps_trans; [exact S2|]. clear Hm S2.
  destruct a0; [|injection H as _ <-; apply steps_refl].
  minv H. unfold intent_delay in Hm.
  destruct (liftC_refines E _ _ _ _ Hm) as (S3 & _ & _).
  pose proof (core_steps_WF E _ _ S3 HW2) as HW3.
  eapply core_steps_trans; [exact S3|]. clear Hm S3.
  minv H. pose proof (drain_refines E _ _ _ _ _ HW3 Hm) as S4.
  eapply core_steps_trans; [exact S4|].
  unfold bind, modify in H.
  destruct a1; injection H as _ <-; apply core_steps_one, step_sending.
Qed.

(** The last loop drives the queue by steps of the core and then, at most
    once, interrupts the driving thread. *)
Lemma drive_loop_spec fuel n main flag : forall w w',
  WF w -> drive_loop E fuel n main flag w = Some (tt, w') ->
  exists w1,
    core_steps E w w1
    /\ (w' = w1
        \/ (main = false /\ _aTB_interrupted w1 = false
            /\ w' = set_trace (trace w1 ++ [EvInterruptWait])
                      (set_interrupted true w1))).
Proof.
  induction n as [|n IH]; intros w w' HW H; [discriminate|].
  cbn [drive_loop] in H.
  unfold bind at 1 in H. unfold _canSendNow in H. cbn [get] in H.
  destruct (_aTB_numPendingTransmits w <? MAX_PENDING_TRANSMITS E) eqn:Hc.
  2:{ injection H as <-. exists w. split; [apply steps_refl|auto]. }
  apply Z.ltb_lt in Hc. minv H.
  pose proof (runQueued_refines E fuel _ _ _ _ HW Hc Hm) as S1.
  pose proof (core_steps_WF E _ _ S1 HW) as HW1.
  destruct a.
  - destruct (IH _ _ HW1 H) as (w1 & S2 & Hw).
    exists w1. split; [eapply core_steps_trans; eassumption|exact Hw].
  - exists w0. split; [exact S1|].
    unfold bind at 1 in H. cbn [get] in H.
    destruct main; cbn [negb andb] in H; [injection H as <-; auto|].
    destruct (_aTB_interrupted w0) eqn:Hi; cbn [negb] in H;
      [injection H as <-; auto|].
    unfold bind, modify in H. rewrite emit_eq in H. injection H as <-.
    right. auto.
Qed.

Lemma schedulePreparedIntent_Inv f fuel main ti flag w r w' :
  callbacks ti = O -> Inv E f w ->
  _schedulePreparedIntent E fuel main ti flag w = Some (r, w') ->
  Inv E (accept (ident ti) f) w'.
Proof.
  intros Hc Hw H. unfold _schedulePreparedIntent in H. minv H.
  pose proof (admit_prepared_Inv _ _ _ _ _ _ Hc Hw Hm) as H1.
  destruct a; [|injection H as _ <-; exact H1].
  minv H.
  pose proof (throttle_refines _ _ _ _ _ _ (Inv_WF _ _ H1) Hm0) as S1.
  pose proof (core_steps_Inv E _ _ _ S1 H1) as H2.
  destruct a as [[]|e]; [|injection H as _ <-; exact H2].
  minv H. destruct a. injection H as _ <-.
  destruct (drive_loop_spec _ _ _ _ _ _ (Inv_WF _ _ H2) Hm1) as (w3 & S2 & Hd).
  pose proof (core_steps_Inv E _ _ _ S2 H2) as H3.
  destruct Hd as [->|(_ & _ & ->)]; [exact H3|].
  change (Inv E (accept (ident ti) f)
            (set_trace (trace (set_interrupted true w3) ++ [EvInterruptWait])
               (set_interrupted true w3))).
  apply Inv_event; [reflexivity|reflexivity|]. apply Inv_interrupted, H3.
Qed.

Lemma serialize_and_schedule_Inv f fuel main ti flag w o w' :
  callbacks ti = O -> Inv E f w ->
  serialize_and_schedule E fuel main ti flag w = Some (o, w') ->
  (accepted o = true /\ Inv E (accept (ident ti) f) w')
  \/ (accepted o = false /\ w' = w).
Proof.
  intros Hc Hw H. unfold serialize_and_schedule in H.
  destruct (serializer E ti) as [b|].
  - unfold bind at 1 in H. rewrite emit_eq in H. minv H.
    left. split; [destruct a; injection H as <- _; reflexivity|].
    assert (w' = w0) as -> by (destruct a; injection H as _ <-; reflexivity).
    eapply (schedulePreparedIntent_Inv f fuel main (set_serMsg b ti));
      [exact Hc| |exact Hm].
    apply Inv_event; [reflexivity|reflexivity|exact Hw].
  - injection H as <- <-. right. split; reflexivity.
Qed.

End Admission.

(* ----------------------------------------------------------------- *)
(** *** The invariant holds in every state the core reaches *)

Section Reachable.
Variable E : Env.

Lemma scheduleTransmit_Inv f fuel main am ti flag w o w' :
  callbacks ti = O -> Inv E f w ->
  scheduleTransmit E fuel main am ti flag w = Some (o, w') ->
  (accepted o = true /\ Inv E (accept (ident ti) f) w')
  \/ (accepted o = false /\ w' = w).
Proof.
  intros Hc Hw H. unfold scheduleTransmit in H.
  destruct am as [prep|].
  - destruct (prep (targetAddr ti) (message ti)) as [tgt txmsg].
    destruct (isDead txmsg).
    + unfold bind in H. rewrite emit_eq in H.
      rewrite (tx_done_fresh E _ _ _ _ Hc) in H. injection H as <- <-.
      left. split; [reflexivity|].
      apply Inv_fire. apply Inv_emit; [constructor|exact Hw].
    + destruct tgt as [a|].
      * apply (serialize_and_schedule_Inv E f fuel main
                 (changeMessage txmsg (changeTargetAddr (Some a) ti)) flag);
          assumption.
      * injection H as <- <-. right. split; reflexivity.
  - eapply serialize_and_schedule_Inv; eassumption.
Qed.

Lemma occ_map_ident id (g : TransmitIntent -> TransmitIntent) l :
  (forall x, ident (g x) = ident x) -> occ id (map g l) = occ id l.
Proof.
  intros Hg. induction l as [|x l IH]; [reflexivity|].
  cbn. rewrite Hg, IH. reflexivity.
Qed.

Lemma deadAddress_Inv f am child w w' :
  Inv E f w -> deadAddress am child w = Some (tt, w') -> Inv E f w'.
Proof.
  intros [Hq Hi Hc Hm Hl He Ho] H. unfold deadAddress, modify in H.
  injection H as <-.
  set (g := fun each : TransmitIntent =>
              match targetAddr each with
              | Some a =>
                  if Nat.eqb a child then
                    let (newtgt, newmsg) := am (targetAddr each) (message each) in
                    changeMessage newmsg (changeTargetAddr newtgt each)
                  else each
              | None => each
              end).
  assert (Hg : forall x, ident (g x) = ident x /\ callbacks (g x) = callbacks x).
  { intros x. unfold g. destruct (targetAddr x) as [a|]; [|auto].
    destruct (Nat.eqb a child); [|auto].
    destruct (am (Some a) (message x)). auto. }
  constructor; try assumption.
  - unfold queue_fresh. cbn. apply Forall_map.
    eapply Forall_impl; [|exact Hq]. cbn. intros x Hx.
    rewrite (proj2 (Hg x)). exact Hx.
  - cbn. rewrite length_map. exact Hl.
  - intros id. rewrite <- Ho. unfold owned. cbn.
    rewrite (occ_map_ident id g); [reflexivity|]. intros x. apply Hg.
Qed.

Lemma Inv_init : Inv E (accepted_count []) init_world.
Proof.
  constructor; cbn; try constructor; auto.
Qed.

Lemma reachable_Inv w acc : reachable E w acc -> Inv E (accepted_count acc) w.
Proof.
  induction 1 as [|w acc fuel main am ti flag w' o _ IH Hc Hn H Ho
                  |w acc fuel main am ti flag w' o _ IH Hc Hn H Ho
                  |w acc fuel id s w' _ IH H
                  |w acc am child w' _ IH H
                  |w acc b w' _ IH H].
  - apply Inv_init.
  - destruct (scheduleTransmit_Inv _ _ _ _ _ _ _ _ _ Hc IH H) as [[_ Hi]|[Ho' _]];
      [|congruence].
    eapply Inv_ext; [|exact Hi]. intros id. unfold accept, accepted_count.
    cbn. destruct (Nat.eq_dec (ident ti) id) as [->|Hne].
    + rewrite Nat.eqb_refl. reflexivity.
    + apply Nat.eqb_neq in Hne. rewrite Hne. reflexivity.
  - destruct (scheduleTransmit_Inv _ _ _ _ _ _ _ _ _ Hc IH H) as [[Hr _]|[_ ->]];
      [congruence|exact IH].
  - eapply core_steps_Inv; [|exact IH].
    eapply transport_complete_refines; [|exact H]. eapply Inv_WF; exact IH.
  - eapply deadAddress_Inv; eassumption.
  - unfold enableRXPauseFlowControl, modify in H. injection H as <-.
    apply Inv_rx. exact IH.
Qed.


End Reachable.

Lemma demo_reachable : reachable demo_env demo_world [3; 2; 1]%nat.
Proof.
  eapply (reach_complete demo_env demo_world3 _ 8 1%nat Sent);
    [|vm_compute; reflexivity].
  eapply (reach_submit demo_env _ _ 8 true None (intent 3 forever) false).
  - eapply (reach_submit demo_env _ _ 8 true None (intent 2 forever) false).
    + eapply (reach_submit demo_env _ _ 8 true None (intent 1 forever) false).
      * apply reach_init.
      * reflexivity.
      * intros [].
      * vm_compute. reflexivity.
      * reflexivity.
    + reflexivity.
    + cbn. intros [H|[]]. discriminate.
    + vm_compute. reflexivity.
    + reflexivity.
  - reflexivity.
  - cbn. intros [H|[H|[]]]; discriminate.
  - vm_compute. reflexivity.
  - reflexivity.
Qed.

(** The sixth submission finds the queue at [MAX_QUEUED_TRANSMITS] and ends
    with the exception of the drain, the intent left in the queue. *)
Lemma overload_raises :
  scheduleTransmit demo_env 8 true None (intent 6 forever) false
                   overload_world5
  = Some (Raised TypeError, overload_world).
Proof. vm_compute. reflexivity. Qed.

Lemma overload_reachable :
  reachable demo_env overload_world [6; 5; 4; 3; 2; 1]%nat.
Proof.
  eapply (reach_submit demo_env overload_world5 _ 8 true None
            (intent 6 forever) false);
    [|reflexivity| |exact overload_raises|reflexivity].
  2:{ cbn. intros [H|[H|[H|[H|[H|[]]]]]]; discriminate. }
  eapply (reach_submit demo_env _ _ 8 true None (intent 5 forever) false).
  - eapply (reach_submit demo_env _ _ 8 true None (intent 4 forever) false).
    + eapply (reach_submit demo_env _ _ 8 true None (intent 3 forever) false).
      * eapply (reach_submit demo_env _ _ 8 true None (intent 2 forever) false).
        -- eapply (reach_submit demo_env _ _ 8 true None (intent 1 forever)
                     false).
           ++ apply reach_init.
           ++ reflexivity.
           ++ intros [].
           ++ vm_compute. reflexivity.
           ++ reflexivity.
        -- reflexivity.
        -- cbn. intros [H|[]]. discriminate.
        -- vm_compute. reflexivity.
        -- reflexivity.
      * reflexivity.
      * cbn. intros [H|[H|[]]]; discriminate.
      * vm_compute. reflexivity.
      * reflexivity.
    + reflexivity.
    + cbn. intros [H|[H|[H|[]]]]; discriminate.
    + vm_compute. reflexivity.
    + reflexivity.
  - reflexivity.
  - cbn. intros [H|[H|[H|[H|[]]]]]; discriminate.
  - vm_compute. reflexivity.
  - reflexivity.
Qed.

(* ----------------------------------------------------------------- *)
(** *** C1, C2, C3 *)



(** C2.  The queue never holds more than [DROP_TRANSMITS_LEVEL] intents; an
    enqueue attempted when it holds that many (or more) stores nothing,
    leaves the state as it is but for the trace, and completes the intent as
    [Failed]; the test of the length and the append are one function of one
    state. *)
Theorem C2_queue_bounded (E : Env) :
  0 <= DROP_TRANSMITS_LEVEL E ->
  (forall w acc,
      reachable E w acc ->
      Z.of_nat (length (_aTB_queuedPendingTransmits w))
      <= DROP_TRANSMITS_LEVEL E)
  /\ (forall fuel ti w,
         callbacks ti = O ->
         DROP_TRANSMITS_LEVEL E
         <= Z.of_nat (length (_aTB_queuedPendingTransmits w)) ->
         _queue_tx E fuel ti w
         = Some (false,
                 set_trace (trace w ++ [EvLog LogDroppingTX;
                                        EvTxDone (ident ti) Failed]) w))
  /\ (forall ti w,
         _qtx E ti w
         = if Z.of_nat (length (_aTB_queuedPendingTransmits w))
              <? DROP_TRANSMITS_LEVEL E
           then Some (true,
                      set_queuedPendingTransmits
                        (_aTB_queuedPendingTransmits w ++ [ti]) w)
           else Some (false, w)).
Proof.
  intros H0. split; [|split].
  - intros w acc Hr. apply (inv_queue_max _ _ _ (reachable_Inv E _ _ Hr) H0).
  - intros fuel ti w Hc Hfull. rewrite (queue_tx_eq E _ _ _ Hc).
    apply Z.ltb_ge in Hfull. rewrite Hfull. reflexivity.
  - intros ti w. reflexivity.
Qed.

Lemma C2_witness :
  Z.of_nat (length (_aTB_queuedPendingTransmits demo_world)) <= 5
  /\ _queue_tx demo_env 1 (queued 9 forever)
       (set_queuedPendingTransmits
          (map (fun i => queued i forever) [1; 2; 3; 4; 5]%nat) init_world)
     = Some (false,
             set_trace [EvLog LogDroppingTX; EvTxDone 9 Failed]
               (set_queuedPendingTransmits
                  (map (fun i => queued i forever) [1; 2; 3; 4; 5]%nat)
                  init_world)).
Proof.
  assert (H0 : 0 <= DROP_TRANSMITS_LEVEL demo_env) by (cbn; lia).
  split.
  - exact (proj1 (C2_queue_bounded demo_env H0) _ _ demo_reachable).
  - apply (proj1 (proj2 (C2_queue_bounded demo_env H0))).
    + reflexivity.
    + cbn. lia.
Defined.



(** C6.  When the address manager reports the target dead, a new intent is
    completed with [Sent] at once and [scheduleTransmit] returns; nothing
    else changes: the intent is not queued, the serializer is not called and
    the Transport is not entered. *)
Theorem C6_dead_target_completes_sent
    (E : Env) (fuel : nat) (main : bool) (am : AddressManager)
    (ti : TransmitIntent) (flag : bool) (w : World) :
  callbacks ti = O ->
  snd (am (targetAddr ti) (message ti)) = DeadTargetMarker ->
  scheduleTransmit E fuel main (Some am) ti flag w
  = Some (Returned,
          set_trace (trace w ++ [EvLog (LogFakingDeadTarget (ident ti));
                                 EvTxDone (ident ti) Sent]) w).
Proof.
  intros Hc Hd. unfold scheduleTransmit.
  destruct (am (targetAddr ti) (message ti)) as [tgt txmsg]. cbn in Hd.
  subst txmsg. cbn [isDead]. unfold bind.
  rewrite emit_eq, (tx_done_fresh E _ _ _ _ Hc).
  destruct w; cbn. rewrite <- app_assoc. reflexivity.
Qed.

Lemma C6_witness :
  scheduleTransmit demo_env 0 false (Some dead_manager) (intent 1 forever)
                   false demo_world
  = Some (Returned,
          set_trace (trace demo_world ++ [EvLog (LogFakingDeadTarget 1);
                                          EvTxDone 1 Sent]) demo_world).
Proof.
  apply (C6_dead_target_completes_sent demo_env 0 false dead_manager
           (intent 1 forever) false demo_world); reflexivity.
Defined.

(* ----------------------------------------------------------------- *)
(** *** [_runQueued] when it has nothing to do, and when it submits *)

Section Drive.
Variable E : Env.

Lemma runQueued_after_sweeps k flag w :
  queue_fresh w ->
  (length (_aTB_queuedPendingTransmits w) <= k)%nat ->
  exists w1,
    swept E w w1
    /\ _runQueued E (S k) flag w = submit_next E (_runQueued E k) k flag w1.
Proof.
  intros Hq Hk.
  destruct (sweep_all_total E (_runQueued E k) k w Hq Hk) as (w1 & H1 & Hs).
  exists w1. split; [exact Hs|].
  cbn [_runQueued]. unfold _runQueued_body, bind. rewrite H1. reflexivity.
Qed.

(** Another context holds the rights: [False], and both flags cleared. *)
Lemma runQueued_blocked n w :
  queue_fresh w -> _aTB_processing w = true ->
  (length (_aTB_queuedPendingTransmits w) < n)%nat ->
  exists w1, swept E w w1 /\ _runQueued E n false w = Some (false, released w1).
Proof.
  intros Hq Hp Hn. destruct n as [|k]; [lia|].
  destruct (runQueued_after_sweeps k false w Hq) as (w1 & Hs & ->); [lia|].
  exists w1. split; [exact Hs|]. rewrite submit_next_eq.
  destruct (swept_fields E _ _ Hs) as (_ & -> & _). rewrite Hp. reflexivity.
Qed.

(** A submission is under way, or the queue is empty: [False], and the state
    as the sweeps left it. *)
Lemma runQueued_idle n flag w :
  queue_fresh w -> flag || negb (_aTB_processing w) = true ->
  (length (_aTB_queuedPendingTransmits w) < n)%nat ->
  exists w1,
    swept E w w1
    /\ (_aTB_sending w = true \/ _aTB_queuedPendingTransmits w1 = [] ->
        _runQueued E n flag w = Some (false, w1)).
Proof.
  intros Hq Hp Hn. destruct n as [|k]; [lia|].
  destruct (runQueued_after_sweeps k flag w Hq) as (w1 & Hs & ->); [lia|].
  exists w1. split; [exact Hs|]. intros Hc. rewrite submit_next_eq.
  destruct (swept_fields E _ _ Hs) as (_ & -> & -> & _). rewrite Hp.
  destruct (_aTB_sending w); [reflexivity|].
  destruct Hc as [Hc|Hc]; [discriminate|]. rewrite Hc. reflexivity.
Qed.

Lemma swept_trace w w' :
  swept E w w' ->
  exists evs, trace w' = trace w ++ evs /\ transport_entries evs = [].
Proof.
  induction 1 as [w|w w' _ IH].
  - exists []. rewrite app_nil_r. auto.
  - destruct IH as (evs & -> & He). rewrite sweep_world_trace.
    eexists. rewrite <- app_assoc. split; [reflexivity|].
    rewrite transport_entries_app, transport_entries_sweep_events. exact He.
Qed.

(** The refill loop of a completion that arrives while [_runQueued] is
    submitting: it ends after at most one call, which finds the rights
    taken. *)
Lemma refill_blocked k n w :
  queue_fresh w -> _aTB_processing w = true ->
  (length (_aTB_queuedPendingTransmits w) < k)%nat -> (0 < n)%nat ->
  exists w1 w',
    swept E w w1
    /\ refill_loop E (_runQueued E k) n w = Some (tt, w')
    /\ (w' = w1 \/ w' = released w1).
Proof.
  intros Hq Hp Hk Hn. destruct n as [|n]; [lia|].
  rewrite refill_loop_S.
  destruct (_aTB_numPendingTransmits w <? MAX_PENDING_TRANSMITS E).
  - destruct (runQueued_blocked k w Hq Hp Hk) as (w1 & Hs & ->).
    exists w1, (released w1). auto.
  - exists w, w. split; [apply swept_refl|auto].
Qed.

End Drive.

(** C4 as stated fails.  With a submission under way, [_runQueued] returns
    [False] but its sweep has emptied a queue that held an expired intent;
    and when another context holds the rights, it returns [False] with both
    flags cleared. *)
Lemma C4_counterexample :
  (exists w',
      _runQueued still_env 2 false
        (set_sending true
           (set_queuedPendingTransmits [queued 1 (until 0)] init_world))
      = Some (false, w')
      /\ _aTB_queuedPendingTransmits w' = [])
  /\ (exists w',
         _runQueued still_env 2 false
           (set_processing true (set_sending true
              (set_queuedPendingTransmits [queued 1 forever] init_world)))
         = Some (false, w')
         /\ _aTB_processing w' = false /\ _aTB_sending w' = false).
Proof.
  split; eexists; (split; [vm_compute; reflexivity|]); cbn; auto.
Qed.

(** C4, amended.  Called without the exclusive flag, [_runQueued] first
    sweeps the queue: [w1] is the state after the sweeps, which differs from
    [w] by the expired intents only (they left the queue and were completed
    as [Failed]) and not at all, clock readings apart, when no queued intent
    expires.  If then another context holds the rights, or a submission is
    under way, or the queue is empty, it returns [False], enters the
    Transport for no intent, and leaves queue, count and Transport as the
    sweeps left them; in the last two cases, with the rights free, it also
    leaves both flags as they were. *)
Theorem C4_runQueued_nothing_done (E : Env) (fuel : nat) (w : World) :
  queue_fresh w ->
  (length (_aTB_queuedPendingTransmits w) < fuel)%nat ->
  exists w1,
    swept E w w1
    /\ (Forall (never_expires_from (clock E) (reads w))
               (_aTB_queuedPendingTransmits w) ->
        _aTB_queuedPendingTransmits w1 = _aTB_queuedPendingTransmits w
        /\ trace w1 = trace w)
    /\ (_aTB_processing w = true \/ _aTB_sending w = true
        \/ _aTB_queuedPendingTransmits w1 = [] ->
        exists w',
          _runQueued E fuel false w = Some (false, w')
          /\ _aTB_queuedPendingTransmits w' = _aTB_queuedPendingTransmits w1
          /\ trace w' = trace w1
          /\ transport_entries (trace w') = transport_entries (trace w)
          /\ _aTB_numPendingTransmits w' = _aTB_numPendingTransmits w
          /\ inflight w' = inflight w
          /\ (_aTB_processing w = false ->
              _aTB_processing w' = false
              /\ _aTB_sending w' = _aTB_sending w)).
Proof.
  intros Hq Hn.
  destruct (_aTB_processing w) eqn:Hp.
  - destruct (runQueued_blocked E fuel w Hq Hp Hn) as (w1 & Hs & Hr).
    exists w1. split; [exact Hs|]. split; [apply swept_never; exact Hs|].
    intros _. exists (released w1). split; [exact Hr|].
    destruct (swept_fields E _ _ Hs) as (En & _ & _ & _ & _ & Ei).
    destruct (swept_trace E _ _ Hs) as (evs & Et & He).
    assert (Hte : transport_entries (trace w1) = transport_entries (trace w))
      by (rewrite Et, transport_entries_app, He, app_nil_r; reflexivity).
    cbn. repeat split; auto. all: discriminate.
  - destruct (runQueued_idle E fuel false w Hq) as (w1 & Hs & Hr);
      [rewrite Hp; reflexivity|exact Hn|].
    exists w1. split; [exact Hs|]. split; [apply swept_never; exact Hs|].
    intros [Hc|Hc]; [discriminate|]. exists w1. split; [exact (Hr Hc)|].
    destruct (swept_fields E _ _ Hs) as (En & Ep & Es & _ & _ & Ei).
    destruct (swept_trace E _ _ Hs) as (evs & Et & He).
    assert (Hte : transport_entries (trace w1) = transport_entries (trace w))
      by (rewrite Et, transport_entries_app, He, app_nil_r; reflexivity).
    repeat split; auto. rewrite Ep. exact Hp.
Qed.

Lemma C4_witness :
  exists w',
    _runQueued demo_env 2 false
      (set_sending true
         (set_queuedPendingTransmits [queued 1 forever] init_world))
    = Some (false, w')
    /\ _aTB_queuedPendingTransmits w' = [queued 1 forever]
    /\ _aTB_processing w' = false /\ _aTB_sending w' = true.
Proof.
  destruct (C4_runQueued_nothing_done demo_env 2
              (set_sending true
                 (set_queuedPendingTransmits [queued 1 forever] init_world)))
    as (w1 & _ & Hne & Hr).
  - repeat constructor.
  - cbn. lia.
  - destruct Hne as [Hq1 _]; [repeat constructor|].
    destruct Hr as (w' & Hrun & Hq' & _ & _ & _ & _ & Hf); [right; left; reflexivity|].
    destruct (Hf eq_refl) as [Hp' Hs'].
    exists w'. rewrite Hq', Hq1. auto.
Defined.

(** C5 as stated fails: the Transport is entered while the rights are still
    held ([_aTB_processing] is true in the entry recorded). *)
Lemma C5_counterexample :
  exists w',
    _runQueued demo_env 2 false
      (set_queuedPendingTransmits [queued 1 forever] init_world)
    = Some (true, w')
    /\ transport_entries (trace w') = [(1, true, true)].
Proof.
  eexists. split; [vm_compute; reflexivity|]. reflexivity.
Qed.

(** C5, amended.  When the rights are free (or the caller holds them) and no
    submission is under way, [_runQueued] sweeps ([w1] is the state after
    the sweeps) and, the queue not being empty, takes the rights, sets the
    sending flag, pops the head and enters the Transport for it with both
    flags set, once; when the call returns, whether the Transport completed
    the intent at once or kept it, both flags are cleared and the result is
    [True]. *)
Theorem C5_flags_held_during_submission
    (E : Env) (fuel : nat) (flag : bool) (w : World) :
  queue_fresh w ->
  (S (length (_aTB_queuedPendingTransmits w)) < fuel)%nat ->
  flag || negb (_aTB_processing w) = true ->
  _aTB_sending w = false ->
  exists w1,
    swept E w w1
    /\ forall x rest,
        _aTB_queuedPendingTransmits w1 = x :: rest ->
        exists w' evs,
          _runQueued E fuel flag w = Some (true, w')
          /\ trace w'
             = trace w1
               ++ EvTransmitActual (ident x) (_aTB_numPendingTransmits w + 1)
                                   true true :: evs
          /\ transport_entries evs = []
          /\ _aTB_processing w' = false
          /\ _aTB_sending w' = false.
Proof.
  intros Hq Hn Hp Hs. destruct fuel as [|k]; [lia|].
  destruct (runQueued_after_sweeps E k flag w Hq) as (w1 & Hsw & ->); [lia|].
  exists w1. split; [exact Hsw|]. intros x rest Hq1.
  destruct (swept_fields E _ _ Hsw) as (En & Ep & Es & _ & _ & _).
  pose proof (swept_fresh E _ _ Hsw Hq) as Hq1f.
  pose proof (swept_length E _ _ Hsw) as Hlen.
  rewrite submit_next_eq, Ep, Es, Hp, Hs, Hq1, submitTransmit_eq.
  assert (Hx : callbacks x = O /\ Forall (fun ti => callbacks ti = O) rest).
  { unfold queue_fresh in Hq1f. rewrite Hq1 in Hq1f.
    inversion Hq1f; subst. auto. }
  destruct Hx as [Hx Hrest].
  destruct (transmitActual E (addCallback x) (entered x (popped rest w1)))
    as [s|].
  - rewrite tx_done_body_registered by (cbn; rewrite Hx; reflexivity).
    destruct (refill_blocked E k k
                (completed (addCallback x) s (entered x (popped rest w1))))
      as (w2 & w3 & Hs2 & -> & Hw3).
    + exact Hrest.
    + reflexivity.
    + cbn. rewrite Hq1 in Hlen. cbn in Hlen. lia.
    + lia.
    + destruct (swept_trace E _ _ Hs2) as (evs & Et & He).
      exists (released w3), (EvTxDone (ident x) s :: evs).
      split; [reflexivity|].
      assert (Ht3 : trace w3 = trace w2) by (destruct Hw3; subst; reflexivity).
      cbn. rewrite Ht3, Et. cbn. rewrite En, <- !app_assoc.
      repeat split; auto.
  - eexists _, []. split; [reflexivity|]. cbn. rewrite En. auto.
Qed.

Lemma C5_witness :
  exists w',
    _runQueued sync_env 3 false
      (set_queuedPendingTransmits [queued 1 forever] init_world)
    = Some (true, w')
    /\ transport_entries (trace w') = [(1, true, true)]
    /\ _aTB_processing w' = false /\ _aTB_sending w' = false.
Proof.
  destruct (C5_flags_held_during_submission sync_env 3 false
              (set_queuedPendingTransmits [queued 1 forever] init_world))
    as (w1 & Hsw & H).
  - repeat constructor.
  - cbn. lia.
  - reflexivity.
  - reflexivity.
  - destruct (swept_never sync_env _ _ Hsw) as [Hq1 Ht1]; [repeat constructor|].
    destruct (H _ _ Hq1) as (w' & evs & Hr & Ht & He & Hp & Hs).
    exists w'. split; [exact Hr|]. rewrite Ht, Ht1. cbn. rewrite He. auto.
Defined.

(* ----------------------------------------------------------------- *)
(** *** The interrupt of the driving thread *)

Section Interrupt.
Variable E : Env.

Lemma admit_prepared_WF fuel ti w go w' :
  callbacks ti = O -> WF w ->
  admit_prepared E fuel ti w = Some (go, w') -> WF w'.
Proof.
  intros Hc [Hq Hi] H. rewrite (admit_prepared_eq E _ _ _ Hc) in H.
  destruct (is_nil (serMsg ti)); [injection H as _ <-; split; assumption|].
  destruct (is_UpdateWork (message ti));
    [injection H as _ <-; split; assumption|].
  destruct (Z.of_nat (length (_aTB_queuedPendingTransmits w))
            <? DROP_TRANSMITS_LEVEL E); injection H as _ <-;
    [|split; assumption].
  split; [|exact Hi]. unfold queue_fresh. cbn.
  apply Forall_app. split; [exact Hq|]. constructor; [exact Hc|constructor].
Qed.

(** Admission calls [interrupt_wait] never, and clears the flag exactly for
    a wake message with a payload. *)
Lemma admit_prepared_interrupt fuel ti w go w' :
  callbacks ti = O ->
  admit_prepared E fuel ti w = Some (go, w') ->
  interrupts (trace w') = interrupts (trace w)
  /\ _aTB_interrupted w'
     = if negb (is_nil (serMsg ti)) && is_UpdateWork (message ti)
       then false else _aTB_interrupted w.
Proof.
  intros Hc H. rewrite (admit_prepared_eq E _ _ _ Hc) in H.
  destruct (is_nil (serMsg ti)); cbn [negb andb].
  { injection H as _ <-. cbn. rewrite interrupts_app. cbn. split; [lia|auto]. }
  destruct (is_UpdateWork (message ti)).
  { injection H as _ <-. cbn. rewrite interrupts_app. cbn. split; [lia|auto]. }
  destruct (Z.of_nat (length (_aTB_queuedPendingTransmits w))
            <? DROP_TRANSMITS_LEVEL E); injection H as _ <-; cbn.
  - auto.
  - rewrite interrupts_app. cbn. split; [lia|auto].
Qed.

Lemma schedulePreparedIntent_interrupt fuel main ti flag w r w' :
  WF w -> callbacks ti = O ->
  _schedulePreparedIntent E fuel main ti flag w = Some (r, w') ->
  (interrupts (trace w') = interrupts (trace w)
   /\ _aTB_interrupted w'
      = if negb (is_nil (serMsg ti)) && is_UpdateWork (message ti)
        then false else _aTB_interrupted w)
  \/ (interrupts (trace w') = S (interrupts (trace w))
      /\ main = false
      /\ (if negb (is_nil (serMsg ti)) && is_UpdateWork (message ti)
          then false else _aTB_interrupted w) = false
      /\ _aTB_interrupted w' = true).
Proof.
  intros HW Hc H. unfold _schedulePreparedIntent in H. minv H.
  destruct (admit_prepared_interrupt _ _ _ _ _ Hc Hm) as [Hn Hf].
  pose proof (admit_prepared_WF _ _ _ _ _ Hc HW Hm) as HW0.
  destruct a; [|injection H as _ <-; left; auto].
  minv H.
  pose proof (throttle_refines E _ _ _ _ _ _ HW0 Hm0) as S1.
  pose proof (core_steps_WF E _ _ S1 HW0) as HW1.
  destruct a as [[]|e].
  2:{ injection H as _ <-.
      destruct (core_steps_frame E _ _ S1) as (Hi1 & _ & Hn1 & _).
      left. rewrite Hn1, Hi1. auto. }
  minv H. destruct a. injection H as _ <-.
  destruct (drive_loop_spec E _ _ _ _ _ _ HW1 Hm1) as (w3 & S2 & Hd).
  pose proof (core_steps_trans E _ _ _ S1 S2) as S12.
  destruct (core_steps_frame E _ _ S12) as (Hi2 & _ & Hn2 & _).
  destruct Hd as [->|(Hmain & Hi & ->)].
  - left. rewrite Hn2, Hi2. auto.
  - right. cbn. rewrite interrupts_app, Hn2, Hn. cbn.
    rewrite <- Hf, <- Hi2. repeat split; auto. lia.
Qed.

End Interrupt.

(** C9 as stated fails for a wake message whose payload is empty: it is
    completed as [Sent] by the nothing-to-send test, which returns before
    the flag is cleared. *)
Lemma C9_counterexample :
  exists w',
    scheduleTransmit empty_env 1 true None (wake 1) false
                     (set_interrupted true init_world)
    = Some (Returned, w')
    /\ trace w' = [EvSerialize 1; EvTxDone 1 Sent]
    /\ _aTB_interrupted w' = true.
Proof.
  eexists. split; [vm_compute; reflexivity|]. split; reflexivity.
Qed.

(** C9, amended.  [wake] says that the intent is a wake message with a
    payload.  A call of [_schedulePreparedIntent] for a new intent,
    however it ends, calls
    [interrupt_wait] at most once, only from a thread that is not the
    driving thread, only when the flag - cleared first if the intent is a
    wake message with a payload - is false, and then sets the flag; without
    such a call the flag ends as it was, or cleared by the wake message.  A
    wake message is completed as [Sent] at once and is not queued, so the
    Transport is never entered for it; one without payload leaves the flag
    as it is.  Completions by the Transport neither call [interrupt_wait]
    nor touch the flag. *)
Theorem C9_interrupt_signalled_once
    (E : Env) (fuel : nat) (main : bool) (ti : TransmitIntent) (flag : bool)
    (w : World) :
  WF w -> callbacks ti = O ->
  let wake := negb (is_nil (serMsg ti)) && is_UpdateWork (message ti) in
  let pending := if wake then false else _aTB_interrupted w in
  (forall r w',
      _schedulePreparedIntent E fuel main ti flag w = Some (r, w') ->
      (interrupts (trace w') = interrupts (trace w)
       /\ _aTB_interrupted w' = pending)
      \/ (interrupts (trace w') = S (interrupts (trace w))
          /\ main = false /\ pending = false
          /\ _aTB_interrupted w' = true))
  /\ (wake = true ->
      admit_prepared E fuel ti w
      = Some (true,
              set_interrupted false
                (set_trace (trace w ++ [EvTxDone (ident ti) Sent]) w)))
  /\ (is_nil (serMsg ti) = true ->
      _schedulePreparedIntent E fuel main ti flag w
      = Some (Returns tt,
              set_trace (trace w ++ [EvTxDone (ident ti) Sent]) w))
  /\ (forall id s w',
         transport_complete E fuel id s w = Some (tt, w') ->
         interrupts (trace w') = interrupts (trace w)
         /\ _aTB_interrupted w' = _aTB_interrupted w).
Proof.
  intros HW Hc wake pending. split; [|split; [|split]].
  - intros r w' H.
    apply (schedulePreparedIntent_interrupt E _ _ _ _ _ _ _ HW Hc H).
  - subst wake. intros Hwk. apply andb_prop in Hwk. destruct Hwk as [Hn Hu].
    rewrite (admit_prepared_eq E _ _ _ Hc).
    apply negb_true_iff in Hn. rewrite Hn, Hu. reflexivity.
  - intros Hn. unfold _schedulePreparedIntent, bind.
    rewrite (admit_prepared_eq E _ _ _ Hc), Hn. reflexivity.
  - intros id s w' H.
    pose proof (transport_complete_refines E _ _ _ _ _ HW H) as S1.
    destruct (core_steps_frame E _ _ S1) as (Hi & _ & Hn & _). auto.
Qed.

Lemma C9_witness :
  exists w',
    _schedulePreparedIntent demo_env 8 false (queued 1 forever) false init_world
    = Some (Returns tt, w')
    /\ interrupts (trace w') = 1%nat
    /\ _aTB_interrupted w' = true.
Proof.
  assert (Hrun : exists w',
             _schedulePreparedIntent demo_env 8 false (queued 1 forever) false
                                     init_world = Some (Returns tt, w')
             /\ interrupts (trace w') <> interrupts (trace init_world)).
  { eexists. split; [vm_compute; reflexivity|]. vm_compute. discriminate. }
  destruct Hrun as (w' & Hrun & Hne).
  exists w'. split; [exact Hrun|].
  destruct (proj1 (C9_interrupt_signalled_once demo_env 8 false
                     (queued 1 forever) false init_world
                     (conj (Forall_nil _) (Forall_nil _)) eq_refl)
              _ _ Hrun) as [[H _]|(H1 & _ & _ & H2)].
  - contradiction.
  - split; [exact H1|exact H2].
Defined.

(* ----------------------------------------------------------------- *)
(** *** Drain mode *)

Section Drain.
Variable E : Env.

Lemma sweep_result_fst w :
  fst (sweep_result E w)
  = Z.of_nat (length (_aTB_queuedPendingTransmits (sweep_world E w))).
Proof.
  unfold sweep_result. rewrite sweep_world_queue.
  destruct (sweep_split (clock E) (reads w) (_aTB_queuedPendingTransmits w))
    as [[yes no] r]. reflexivity.
Qed.

Lemma liftC_eq {A} (c : Timing.Clocked A) w :
  liftC c w = Some (fst (c (reads w)), set_reads (snd (c (reads w))) w).
Proof. unfold liftC. destruct (c (reads w)). reflexivity. Qed.

(** [_drain_tx_queue_if_needed], unfolded: the loop either is not entered
    or raises in its first round. *)
Lemma drain_eq fuel d w :
  queue_fresh w ->
  _drain_tx_queue_if_needed E (S fuel) d w
  = let w1 := sweep_world E w in
    let v := fst (sweep_result E w) in
    if (MAX_QUEUED_TRANSMITS E <=? v) && _aTB_rx_pause_enabled w1 then
      if QUEUE_TRANSMIT_UNBLOCK_THRESHOLD E <? v
      then Some (Raises TypeError, drain_entered E d w)
      else Some (Returns (Some ExitThreshold),
                 set_trace (trace (drain_entered E d w) ++ [EvLog LogExitedTxOnly])
                   (drain_entered E d w))
    else Some (Returns None, w1).
Proof.
  intros Hq. unfold _drain_tx_queue_if_needed.
  unfold bind at 1. unfold _complete_expired_intents.
  rewrite (sweep_eq E _ _ w Hq). unfold bind at 1. cbn [get]. cbv zeta.
  destruct ((MAX_QUEUED_TRANSMITS E <=? fst (sweep_result E w))
            && _aTB_rx_pause_enabled (sweep_world E w)); [|reflexivity].
  unfold bind at 1. rewrite liftC_eq. unfold bind at 1. rewrite emit_eq.
  unfold bind at 1. rewrite drain_loop_S.
  destruct (QUEUE_TRANSMIT_UNBLOCK_THRESHOLD E <? fst (sweep_result E w));
    reflexivity.
Qed.

Lemma runs_app a b : runs (a ++ b) = (runs a + runs b)%nat.
Proof.
  induction a as [|e a IH]; [reflexivity|].
  destruct e; cbn; rewrite ?IH; reflexivity.
Qed.

Lemma runs_sweep_events l : runs (sweep_events l) = O.
Proof. unfold sweep_events. induction l; cbn; auto. Qed.

Lemma sweep_world_runs w : runs (trace (sweep_world E w)) = runs (trace w).
Proof.
  rewrite sweep_world_trace, runs_app, runs_sweep_events. lia.
Qed.

End Drain.

(** C8.  Whenever drain mode is entered with the queue above the unblock
    threshold - after the sweep the queue holds at least
    [MAX_QUEUED_TRANSMITS] intents, draining is enabled, and the depth is
    above [QUEUE_TRANSMIT_UNBLOCK_THRESHOLD], as it always is when the
    threshold is below [MAX_QUEUED_TRANSMITS] - the first round of the loop
    raises [TypeError] at [with finish_time as rem_time]:
    [_drain_tx_queue_if_needed] ends with that exception whatever
    [max_delay] is, in the state the sweep left, with the deadline made and
    the entry logged.  [run(TransmitOnly, ..)] is not called, the queue is
    not drained and none of the three exits of the loop is taken. *)
Theorem C8_drain_mode_raises
    (E : Env) (fuel : nat) (d : option Z) (w : World) :
  queue_fresh w ->
  let w1 := sweep_world E w in
  let depth := Z.of_nat (length (_aTB_queuedPendingTransmits w1)) in
  MAX_QUEUED_TRANSMITS E <= depth ->
  _aTB_rx_pause_enabled w = true ->
  QUEUE_TRANSMIT_UNBLOCK_THRESHOLD E < depth ->
  _drain_tx_queue_if_needed E (S fuel) d w
  = Some (Raises TypeError,
          set_trace (trace w1 ++ [EvLog LogEnteringTxOnly])
            (set_reads
               (snd (Timing.init (clock E) (truthy_delay d) (reads w1))) w1))
  /\ (forall x w',
         _drain_tx_queue_if_needed E (S fuel) d w = Some (x, w') ->
         runs (trace w') = runs (trace w)
         /\ _aTB_queuedPendingTransmits w' = _aTB_queuedPendingTransmits w1
         /\ QUEUE_TRANSMIT_UNBLOCK_THRESHOLD E
            < Z.of_nat (length (_aTB_queuedPendingTransmits w'))).
Proof.
  intros Hq w1 depth Hmax Hrx Hthr. pose proof Hthr as Hthr'.
  assert (Heq : _drain_tx_queue_if_needed E (S fuel) d w
                = Some (Raises TypeError, drain_entered E d w)).
  { rewrite (drain_eq E _ _ _ Hq). cbv zeta.
    rewrite sweep_result_fst.
    destruct (sweep_world_fields E w) as (_ & _ & _ & -> & _).
    rewrite Hrx.
    apply Z.leb_le in Hmax. apply Z.ltb_lt in Hthr.
    unfold depth, w1 in Hmax, Hthr. rewrite Hmax, Hthr. reflexivity. }
  split; [exact Heq|].
  intros x w' H. rewrite Heq in H. injection H as _ <-.
  unfold drain_entered. cbn.
  rewrite runs_app, (sweep_world_runs E). cbn.
  split; [lia|]. split; [reflexivity|exact Hthr'].
Qed.

(** With the thresholds [2 < 4] of [busy_env], a queue of four intents that
    never expire and a Transport whose [run] would report work: the drain
    raises before calling it. *)
Lemma C8_witness :
  _drain_tx_queue_if_needed busy_env 1 None backlog_world
  = Some (Raises TypeError,
          set_trace [EvLog LogEnteringTxOnly] backlog_world).
Proof.
  assert (Hq : queue_fresh backlog_world) by (repeat constructor).
  destruct (C8_drain_mode_raises busy_env O None backlog_world Hq) as [H _].
  - vm_compute. discriminate.
  - reflexivity.
  - vm_compute. reflexivity.
  - rewrite H. vm_compute. reflexivity.
Defined.

(* ================================================================= *)
(** ** Further properties of timing.py *)

(** X1.  A timer made with duration [d] at clock reading [r] is expired at a
    later reading exactly when the clock shows at least the time of its
    making plus [d]; a timer made without duration is never expired and its
    making does not read the clock.  Under a clock that never runs
    backwards, a timer once expired stays expired. *)
Theorem X1_expired_characterised (clock : nat -> Z) :
  (forall d r r',
      fst (Timing.expired clock (fst (Timing.init clock d r)) r')
      = match d with
        | None => false
        | Some x => clock r + x <=? clock r'
        end)
  /\ (forall r, snd (Timing.init clock None r) = r)
  /\ (monotone clock ->
      forall t r1 r2,
        (r1 <= r2)%nat ->
        fst (Timing.expired clock t r1) = true ->
        fst (Timing.expired clock t r2) = true).
Proof.
  split; [|split].
  - intros [x|] r r'; reflexivity.
  - reflexivity.
  - intros Hm t r1 r2 Hr. unfold Timing.expired.
    destruct (Timing._time_to_quit t) as [q|]; cbn; [|auto].
    intros H. apply Z.leb_le in H. apply Z.leb_le.
    specialize (Hm r1 r2 Hr). lia.
Qed.

Lemma X1_witness :
  fst (Timing.expired (fun r => Z.of_nat r) (until 3) 6%nat) = true.
Proof.
  apply (proj2 (proj2 (X1_expired_characterised (fun r => Z.of_nat r))))
    with (r1 := 4%nat).
  - intros r r' H. lia.
  - lia.
  - reflexivity.
Defined.

Lemma round_half_even_near n d :
  0 < d -> 2 * Z.abs (d * Timing.round_half_even n d - n) <= d.
Proof.
  intros Hd. unfold Timing.round_half_even.
  pose proof (Z.div_mod n d ltac:(lia)) as Hn.
  pose proof (Z.mod_pos_bound n d Hd) as Hr.
  destruct (2 * (n mod d) <? d) eqn:H1; [apply Z.ltb_lt in H1; lia|].
  apply Z.ltb_ge in H1.
  destruct (d <? 2 * (n mod d)) eqn:H2;
    [apply Z.ltb_lt in H2; rewrite Z.mul_add_distr_l; lia|].
  apply Z.ltb_ge in H2.
  destruct (Z.even (n / d)); [lia|rewrite Z.mul_add_distr_l; lia].
Qed.

Lemma round_half_even_nonneg n d :
  0 < d -> 0 <= n -> 0 <= Timing.round_half_even n d.
Proof.
  intros Hd Hn. unfold Timing.round_half_even.
  pose proof (Z.div_pos n d Hn Hd).
  destruct (2 * (n mod d) <? d); [assumption|].
  destruct (d <? 2 * (n mod d)); [lia|].
  destruct (Z.even (n / d)); lia.
Qed.

(** X2.  [remainingSeconds] is [None] exactly for a timer without expiry
    time; otherwise it is never negative, and it is zero exactly when the
    timer is expired at the same reading of the clock.  [remaining] reads
    the clock as often; it is [None] for a timer without expiry time, and
    otherwise a [timedelta] that is not negative and within half a
    microsecond of [remainingSeconds] (so it is zero for an expired timer,
    and also for a live one with at most half a microsecond left), unless
    the time left is beyond [timedelta.max], when it raises
    [OverflowError]. *)
Theorem X2_remainingSeconds_not_negative
    (clock : nat -> Z) (t : Timing.ExpirationTimer) (r : nat) :
  match fst (Timing.remainingSeconds clock t r) with
  | None =>
      Timing._time_to_quit t = None
      /\ fst (Timing.remaining clock t r) = Returns None
  | Some v =>
      0 <= v
      /\ (v = 0 <-> fst (Timing.expired clock t r) = true)
      /\ match fst (Timing.remaining clock t r) with
         | Returns (Some d) =>
             0 <= Timing.total_microseconds d <= Timing.timedelta_max
             /\ 2 * Z.abs (Timing.microsecond * Timing.total_microseconds d - v)
                <= Timing.microsecond
         | Returns None => False
         | Raises e =>
             e = OverflowError
             /\ Timing.microsecond * Timing.timedelta_max < v
         end
  end
  /\ snd (Timing.remaining clock t r) = snd (Timing.remainingSeconds clock t r).
Proof.
  unfold Timing.remaining, Timing.remainingSeconds, Timing.expired.
  destruct (Timing._time_to_quit t) as [q|]; cbn [Timing.currentTime fst snd];
    [|auto].
  set (v := Z.max (q - clock r) 0).
  assert (Hv : 0 <= v) by (subst v; lia).
  assert (Hm : 0 < Timing.microsecond) by reflexivity.
  pose proof (round_half_even_near v _ Hm) as Hnear.
  pose proof (round_half_even_nonneg v _ Hm Hv) as Hpos.
  unfold Timing.timedelta_of_seconds.
  destruct (Z.abs (Timing.round_half_even v Timing.microsecond)
            <=? Timing.timedelta_max) eqn:Hmax; cbn [fst snd].
  - apply Z.leb_le in Hmax. split; [|reflexivity].
    split; [exact Hv|]. split; [subst v; rewrite Z.leb_le; lia|].
    cbn [Timing.total_microseconds]. split; [lia|exact Hnear].
  - apply Z.leb_gt in Hmax. split; [|reflexivity].
    split; [exact Hv|]. split; [subst v; rewrite Z.leb_le; lia|].
    split; [reflexivity|].
    unfold Timing.microsecond, Timing.timedelta_max in *. lia.
Qed.

(** X3.  [__lt__] is a strict order on timers in which a timer without
    expiry time is above every timer with one: it is irreflexive and
    transitive, no timer is below one with an earlier or equal expiry time,
    and nothing is above a timer that never expires. *)
Theorem X3_lt_strict_order :
  (forall a, Timing.__lt__ a a = false)
  /\ (forall a b c,
         Timing.__lt__ a b = true -> Timing.__lt__ b c = true ->
         Timing.__lt__ a c = true)
  /\ (forall a b, Timing.__lt__ a b = true -> Timing.__lt__ b a = false)
  /\ (forall a b,
         Timing._time_to_quit a <> None -> Timing._time_to_quit b = None ->
         Timing.__lt__ a b = true)
  /\ (forall a b, Timing._time_to_quit a = None -> Timing.__lt__ a b = false).
Proof.
  unfold Timing.__lt__. repeat split.
  - intros a. destruct (Timing._time_to_quit a); [apply Z.ltb_irrefl|reflexivity].
  - intros a b c.
    destruct (Timing._time_to_quit a), (Timing._time_to_quit b),
      (Timing._time_to_quit c); try discriminate; auto.
    rewrite !Z.ltb_lt. lia.
  - intros a b.
    destruct (Timing._time_to_quit a), (Timing._time_to_quit b);
      try discriminate; auto.
    rewrite Z.ltb_lt, Z.ltb_ge. lia.
  - intros a b Ha Hb. rewrite Hb.
    destruct (Timing._time_to_quit a); [reflexivity|contradiction].
  - intros a b Ha. rewrite Ha.
    destruct (Timing._time_to_quit b); reflexivity.
Qed.

Lemma X3_witness :
  Timing.__lt__ (until 1) (until 5) = true
  /\ Timing.__lt__ (until 5) forever = true.
Proof.
  split.
  - apply (proj1 (proj2 X3_lt_strict_order) (until 1) (until 3) (until 5));
      reflexivity.
  - apply (proj1 (proj2 (proj2 (proj2 X3_lt_strict_order))));
      [discriminate|reflexivity].
Defined.

(** X4.  [__eq__] answers [True] for a timer and itself whatever the clock,
    and for two timers that are both expired; it answers [False] exactly
    when one of the two timers never expires and the other does.  For two
    timers with different expiry times that are not both expired it raises
    [TypeError]: its last line compares a number with a [timedelta].  While
    the clock stands still [a == b] and [b == a] end alike. *)
Theorem X4_eq_reflexive_symmetric (clock : nat -> Z) :
  (forall a r, Timing.__eq__ clock a a r = (Returns true, r))
  /\ (forall a b r,
         fst (Timing.expired clock a r) = true ->
         fst (Timing.expired clock b (snd (Timing.expired clock a r))) = true ->
         fst (Timing.__eq__ clock a b r) = Returns true)
  /\ (forall a b r,
         fst (Timing.__eq__ clock a b r) = Returns false
         <-> ((Timing._time_to_quit a = None /\ Timing._time_to_quit b <> None)
              \/ (Timing._time_to_quit a <> None
                  /\ Timing._time_to_quit b = None)))
  /\ (forall a b x y r,
         Timing._time_to_quit a = Some x -> Timing._time_to_quit b = Some y ->
         x <> y ->
         fst (Timing.expired clock a r) = false
         \/ fst (Timing.expired clock b (snd (Timing.expired clock a r)))
            = false ->
         fst (Timing.__eq__ clock a b r) = Raises TypeError)
  /\ (forall now,
         (forall r, clock r = now) ->
         forall a b r,
           fst (Timing.__eq__ clock a b r) = fst (Timing.__eq__ clock b a r)).
Proof.
  split; [|split; [|split; [|split]]].
  - intros a r. unfold Timing.__eq__.
    destruct (Timing._time_to_quit a); [rewrite Z.eqb_refl|]; reflexivity.
  - intros a b r Ha Hb. unfold Timing.__eq__.
    unfold Timing.expired in *.
    destruct (Timing._time_to_quit a) as [x|]; [|discriminate].
    destruct (Timing._time_to_quit b) as [y|]; [|discriminate].
    cbn in *. destruct (x =? y); [reflexivity|].
    rewrite Ha. cbn. rewrite Hb. reflexivity.
  - intros a b r. unfold Timing.__eq__, Timing.expired.
    destruct (Timing._time_to_quit a) as [x|],
             (Timing._time_to_quit b) as [y|]; cbn.
    + split.
      * destruct (x =? y); [discriminate|].
        destruct (x <=? clock r); cbn; [|discriminate].
        destruct (y <=? clock (S r)); discriminate.
      * intros [[H _]|[_ H]]; discriminate.
    + split; [intros _; right; split; [discriminate|reflexivity]|reflexivity].
    + split; [intros _; left; split; [reflexivity|discriminate]|reflexivity].
    + split; [discriminate|]. intros [[_ H]|[H _]]; contradiction.
  - intros a b x y r Ha Hb Hxy He. unfold Timing.__eq__.
    unfold Timing.expired in *. rewrite Ha, Hb in *. cbn in *.
    apply Z.eqb_neq in Hxy. rewrite Hxy.
    destruct (x <=? clock r); cbn; [|reflexivity].
    destruct He as [He|He]; [discriminate|]. rewrite He. reflexivity.
  - intros now Hc a b r. unfold Timing.__eq__, Timing.expired.
    destruct (Timing._time_to_quit a) as [x|],
             (Timing._time_to_quit b) as [y|]; try reflexivity.
    rewrite (Z.eqb_sym y x). destruct (x =? y); [reflexivity|].
    cbn. rewrite !Hc.
    destruct (x <=? now), (y <=? now); reflexivity.
Qed.

Lemma X4_witness :
  fst (Timing.__eq__ (fun _ => 7) (until 3) (until 5000) O) = Raises TypeError.
Proof.
  apply (proj1 (proj2 (proj2 (proj2 (X4_eq_reflexive_symmetric (fun _ => 7)))))
           (until 3) (until 5000) 3 5000 O).
  - reflexivity.
  - reflexivity.
  - lia.
  - right. reflexivity.
Defined.

(** X5.  [<=], [>=] and [!=] call [__eq__] first: where it raises they
    raise the same exception, and where it answers they answer, with
    [a <= b] or [a >= b] true, [a >= b] true whenever [a < b] is not, and
    [a != b] the negation of [a == b].  So two timers with different expiry
    times of which the first is not expired cannot be compared: both
    [a <= b] and [a >= b] raise [TypeError]. *)
Theorem X5_le_ge_answer_or_raise
    (clock : nat -> Z) (a b : Timing.ExpirationTimer) (r : nat) :
  match fst (Timing.__eq__ clock a b r) with
  | Returns e =>
      exists l g,
        fst (Timing.__le__ clock a b r) = Returns l
        /\ fst (Timing.__ge__ clock a b r) = Returns g
        /\ fst (Timing.__ne__ clock a b r) = Returns (negb e)
        /\ (l = true \/ g = true)
        /\ (Timing.__lt__ a b = false -> g = true)
  | Raises x =>
      fst (Timing.__le__ clock a b r) = Raises x
      /\ fst (Timing.__ge__ clock a b r) = Raises x
      /\ fst (Timing.__ne__ clock a b r) = Raises x
  end
  /\ (forall x y,
         Timing._time_to_quit a = Some x -> Timing._time_to_quit b = Some y ->
         x <> y ->
         fst (Timing.expired clock a r) = false ->
         fst (Timing.__le__ clock a b r) = Raises TypeError
         /\ fst (Timing.__ge__ clock a b r) = Raises TypeError).
Proof.
  split.
  - unfold Timing.__le__, Timing.__ge__, Timing.__ne__.
    destruct (Timing.__eq__ clock a b r) as [[[|]|x] r'] eqn:He;
      cbn [fst].
    + exists true, true. repeat split; auto.
    + exists (Timing.__lt__ a b), (Timing.__gt__ a b).
      assert (Hg : Timing.__gt__ a b = negb (Timing.__lt__ a b)).
      { unfold Timing.__eq__ in He. unfold Timing.__gt__.
        destruct (Timing._time_to_quit a), (Timing._time_to_quit b);
          try reflexivity. discriminate. }
      rewrite Hg. repeat split; auto.
      * destruct (Timing.__lt__ a b); auto.
      * intros ->. reflexivity.
    + auto.
  - intros x y Ha Hb Hxy He.
    assert (Heq : fst (Timing.__eq__ clock a b r) = Raises TypeError).
    { unfold Timing.__eq__. unfold Timing.expired in *.
      rewrite Ha, Hb in *. cbn in *.
      apply Z.eqb_neq in Hxy. rewrite Hxy, He. reflexivity. }
    unfold Timing.__le__, Timing.__ge__.
    destruct (Timing.__eq__ clock a b r) as [e r']. cbn in Heq. subst e.
    split; reflexivity.
Qed.

Lemma X5_witness :
  fst (Timing.__le__ (fun _ => 0) (until 9) (until 5) O) = Raises TypeError
  /\ fst (Timing.__ge__ (fun _ => 0) (until 9) (until 5) O) = Raises TypeError.
Proof.
  apply (proj2 (X5_le_ge_answer_or_raise (fun _ => 0) (until 9) (until 5) O)
           9 5).
  - reflexivity.
  - reflexivity.
  - lia.
  - reflexivity.
Defined.



(* ================================================================= *)
(** ** Further properties of asyncTransportBase.py *)

(* ----------------------------------------------------------------- *)
(** *** Send order *)

Lemma subseq_refl {A} (l : list A) : subseq l l.
Proof. induction l; constructor; assumption. Qed.

Lemma subseq_trans {A} (l1 l2 l3 : list A) :
  subseq l1 l2 -> subseq l2 l3 -> subseq l1 l3.
Proof.
  intros H12 H23. revert l1 H12.
  induction H23 as [|x l2 l3 _ IH|x l2 l3 _ IH]; intros l1 H12.
  - exact H12.
  - apply subseq_skip. apply IH. exact H12.
  - inversion H12; subst.
    + apply subseq_skip. apply IH. assumption.
    + apply subseq_take. apply IH. assumption.
Qed.

Lemma subseq_app_head {A} (p l1 l2 : list A) :
  subseq l1 l2 -> subseq (p ++ l1) (p ++ l2).
Proof. intros H. induction p; [exact H|]. cbn. apply subseq_take. assumption. Qed.

Lemma subseq_app_tail {A} (l1 l2 t : list A) :
  subseq l1 l2 -> subseq l1 (l2 ++ t).
Proof.
  induction 1; cbn.
  - induction t; constructor; assumption.
  - constructor; assumption.
  - constructor; assumption.
Qed.

Lemma transmitted_ids_app a b :
  transmitted_ids (a ++ b) = transmitted_ids a ++ transmitted_ids b.
Proof.
  induction a as [|e a IH]; [reflexivity|].
  cbn. destruct e; cbn; rewrite ?IH; reflexivity.
Qed.

Lemma transmitted_ids_sweep_events l : transmitted_ids (sweep_events l) = [].
Proof. unfold sweep_events. induction l as [|x l IH]; [reflexivity|exact IH]. Qed.

Lemma sweep_split_subseq clock q : forall r,
  subseq (map ident (snd (fst (sweep_split clock r q)))) (map ident q).
Proof.
  induction q as [|x t IH]; intros r; [constructor|].
  cbn [sweep_split].
  destruct (Timing.expired clock (quitTime x) r) as [b r1].
  specialize (IH r1).
  destruct (sweep_split clock r1 t) as [[yes no] r2]. cbn [fst snd] in IH.
  destruct b; cbn; constructor; exact IH.
Qed.

Section Fifo.
Variable E : Env.

Lemma fifo_refl w : fifo (map ident (_aTB_queuedPendingTransmits w)) w w.
Proof.
  exists []. rewrite app_nil_r. split; [reflexivity|apply subseq_refl].
Qed.

Lemma fifo_trans q w1 w2 w3 :
  fifo q w1 w2 ->
  fifo (map ident (_aTB_queuedPendingTransmits w2)) w2 w3 ->
  fifo q w1 w3.
Proof.
  intros (n1 & E1 & S1) (n2 & E2 & S2). exists (n1 ++ n2). split.
  - rewrite E2, E1, app_assoc. reflexivity.
  - eapply subseq_trans; [|exact S1]. rewrite <- app_assoc.
    apply subseq_app_head. exact S2.
Qed.

Lemma fifo_weaken q q' w w' : fifo q w w' -> subseq q q' -> fifo q' w w'.
Proof.
  intros (n & E1 & S1) H. exists n. split; [exact E1|].
  eapply subseq_trans; eassumption.
Qed.

Lemma core_step_fifo w w' :
  core_step E w w' -> fifo (map ident (_aTB_queuedPendingTransmits w)) w w'.
Proof.
  destruct 1;
    try (exists []; cbn; rewrite app_nil_r;
         split; [reflexivity|apply subseq_refl]).
  - exists []. rewrite sweep_world_trace, transmitted_ids_app,
      transmitted_ids_sweep_events, sweep_world_queue.
    split; [reflexivity|]. cbn. apply sweep_split_subseq.
  - exists []. cbn. rewrite transmitted_ids_app.
    destruct H; cbn; split; try reflexivity; apply subseq_refl.
  - exists [ident x]. cbn. rewrite transmitted_ids_app, H. cbn.
    split; [reflexivity|]. apply subseq_refl.
  - exists [ident x]. cbn. rewrite transmitted_ids_app, H. cbn.
    split; [reflexivity|]. apply subseq_refl.
  - exists []. cbn. rewrite transmitted_ids_app. cbn.
    split; [reflexivity|]. apply subseq_refl.
Qed.

Lemma core_steps_fifo w w' :
  core_steps E w w' -> fifo (map ident (_aTB_queuedPendingTransmits w)) w w'.
Proof.
  induction 1 as [w|w1 w2 w3 H1 _ IH]; [apply fifo_refl|].
  eapply fifo_trans; [apply core_step_fifo; exact H1|exact IH].
Qed.

End Fifo.

(** X7.  Intents go to the Transport in queue order.  From a state whose
    queued and held intents carry the callbacks they should, driving the
    queue ([_runQueued], called with room for a transmit), a completion by
    the Transport, and the scheduling of a new prepared intent (however it
    ends) each enter
    the Transport for intents in the order in which they are queued: the
    intents entered, followed by those still queued, are the intents queued
    before (with the new one at the end) with some left out. *)
Theorem X7_submission_in_queue_order (E : Env) (w : World) :
  WF w ->
  (forall fuel flag b w',
      _aTB_numPendingTransmits w < MAX_PENDING_TRANSMITS E ->
      _runQueued E fuel flag w = Some (b, w') ->
      fifo (map ident (_aTB_queuedPendingTransmits w)) w w')
  /\ (forall fuel id s w',
         transport_complete E fuel id s w = Some (tt, w') ->
         fifo (map ident (_aTB_queuedPendingTransmits w)) w w')
  /\ (forall fuel main ti flag r w',
         callbacks ti = O ->
         _schedulePreparedIntent E fuel main ti flag w = Some (r, w') ->
         fifo (map ident (_aTB_queuedPendingTransmits w) ++ [ident ti]) w w').
Proof.
  intros HW. split; [|split].
  - intros fuel flag b w' Hn H. apply (core_steps_fifo E).
    eapply runQueued_refines; eassumption.
  - intros fuel id s w' H. apply (core_steps_fifo E).
    eapply transport_complete_refines; eassumption.
  - intros fuel main ti flag r w' Hc H.
    unfold _schedulePreparedIntent in H. minv H.
    pose proof (admit_prepared_WF E _ _ _ _ _ Hc HW Hm) as HW0.
    assert (Had : fifo (map ident (_aTB_queuedPendingTransmits w) ++ [ident ti])
                       w w0).
    { rewrite (admit_prepared_eq E _ _ _ Hc) in Hm. exists [].
      destruct (is_nil (serMsg ti)).
      { injection Hm as _ <-. cbn. rewrite transmitted_ids_app. cbn.
        split; [reflexivity|]. apply subseq_app_tail, subseq_refl. }
      destruct (is_UpdateWork (message ti)).
      { injection Hm as _ <-. cbn. rewrite transmitted_ids_app. cbn.
        split; [reflexivity|]. apply subseq_app_tail, subseq_refl. }
      destruct (_ <? _); injection Hm as _ <-; cbn.
      - rewrite app_nil_r, map_app. split; [reflexivity|apply subseq_refl].
      - rewrite transmitted_ids_app. cbn.
        split; [reflexivity|]. apply subseq_app_tail, subseq_refl. }
    destruct a; [|injection H as _ <-; exact Had].
    minv H.
    pose proof (throttle_refines E _ _ _ _ _ _ HW0 Hm0) as S1.
    pose proof (core_steps_WF E _ _ S1 HW0) as HW1.
    destruct a as [[]|e].
    2:{ injection H as _ <-.
        exact (fifo_trans _ _ _ _ Had (core_steps_fifo E _ _ S1)). }
    minv H. destruct a. injection H as _ <-.
    destruct (drive_loop_spec E _ _ _ _ _ _ HW1 Hm1) as (w3 & S2 & Hd).
    pose proof (core_steps_fifo E _ _ (core_steps_trans E _ _ _ S1 S2)) as F2.
    pose proof (fifo_trans _ _ _ _ Had F2) as F.
    destruct Hd as [->|(_ & _ & ->)]; [exact F|].
    destruct F as (n & En & Sn). exists n. cbn.
    rewrite transmitted_ids_app. cbn. rewrite app_nil_r. auto.
Qed.

Lemma X7_witness :
  fifo [3%nat] demo_world3 demo_world.
Proof.
  assert (HW : WF demo_world3) by (split; repeat constructor).
  apply (proj1 (proj2 (X7_submission_in_queue_order demo_env demo_world3 HW))
           8%nat 1%nat Sent demo_world).
  vm_compute. reflexivity.
Defined.

(* ----------------------------------------------------------------- *)
(** *** [deadAddress] *)

(** X8.  [deadAddress] changes nothing but the queue, and in the queue only
    the target and the message of the intents addressed to the dead child,
    which become what the address manager answers for them; every intent
    keeps its place, its identity, its deadline, its callbacks and its
    serialized payload - the payload of a rewritten intent is still that of
    its old message. *)
Theorem X8_deadAddress_rewrites_in_place
    (am : AddressManager) (child : ActorAddress) (w : World) :
  exists q',
    deadAddress am child w = Some (tt, set_queuedPendingTransmits q' w)
    /\ Forall2
         (fun old new =>
            ident new = ident old
            /\ serMsg new = serMsg old
            /\ quitTime new = quitTime old
            /\ callbacks new = callbacks old
            /\ (targetAddr old <> Some child -> new = old)
            /\ (targetAddr old = Some child ->
                (targetAddr new, message new)
                = am (Some child) (message old)))
         (_aTB_queuedPendingTransmits w) q'.
Proof.
  eexists. split; [reflexivity|].
  induction (_aTB_queuedPendingTransmits w) as [|x q IH]; cbn;
    constructor; [|exact IH].
  destruct (targetAddr x) as [a|] eqn:Ha.
  - destruct (Nat.eqb a child) eqn:Hac.
    + apply Nat.eqb_eq in Hac. subst a.
      destruct (am (Some child) (message x)) as [newtgt newmsg] eqn:Ham.
      cbn. repeat split; auto. intros Hne. contradiction.
    + apply Nat.eqb_neq in Hac. repeat split; auto.
      intros [= Heq]. contradiction.
  - repeat split; auto. discriminate.
Qed.

(* ----------------------------------------------------------------- *)
(** *** [exclusive_processing] *)





(* ----------------------------------------------------------------- *)
(** *** The retryable failures of [scheduleTransmit] *)

(** X10.  [scheduleTransmit] raises [CannotPickleAddress] exactly when the
    address manager gives no address for a target it does not report dead,
    and passes on the serializer's exception when the serializer raises for
    the prepared intent.  A call that raises one of the two leaves the
    state as it was: nothing is completed, queued or sent, so the caller
    can retry. *)
Theorem X10_scheduleTransmit_raises_cleanly
    (E : Env) (fuel : nat) (main : bool) (am : option AddressManager)
    (ti : TransmitIntent) (flag : bool) (w : World) :
  (forall o w',
      scheduleTransmit E fuel main am ti flag w = Some (o, w') ->
      o = Raised_CannotPickleAddress \/ o = Raised_by_serializer -> w' = w)
  /\ (forall prep m,
         am = Some prep ->
         prep (targetAddr ti) (message ti) = (None, m) ->
         m <> DeadTargetMarker ->
         scheduleTransmit E fuel main am ti flag w
         = Some (Raised_CannotPickleAddress, w))
  /\ (am = None -> serializer E ti = None ->
      scheduleTransmit E fuel main am ti flag w
      = Some (Raised_by_serializer, w))
  /\ (forall prep a m,
         am = Some prep ->
         prep (targetAddr ti) (message ti) = (Some a, m) ->
         m <> DeadTargetMarker ->
         serializer E (changeMessage m (changeTargetAddr (Some a) ti)) = None ->
         scheduleTransmit E fuel main am ti flag w
         = Some (Raised_by_serializer, w)).
Proof.
  assert (Hser : forall ti' o w',
             serialize_and_schedule E fuel main ti' flag w = Some (o, w') ->
             o = Raised_CannotPickleAddress \/ o = Raised_by_serializer ->
             w' = w).
  { intros ti' o w' H Ho. unfold serialize_and_schedule in H.
    destruct (serializer E ti').
    - unfold bind in H.
      destruct (emit (EvSerialize (ident ti')) w) as [[u w1]|]; [|discriminate].
      destruct (_schedulePreparedIntent E fuel main _ flag w1) as [[u' w2]|];
        [|discriminate].
      destruct u'; injection H as <- _; destruct Ho; discriminate.
    - injection H as _ <-. reflexivity. }
  assert (Hnd : forall m, m <> DeadTargetMarker -> isDead m = false).
  { intros m Hm. destruct m; [contradiction|reflexivity|reflexivity]. }
  split; [|split; [|split]].
  - intros o w' H Ho. unfold scheduleTransmit in H.
    destruct am as [prep|]; [|eapply Hser; eassumption].
    destruct (prep (targetAddr ti) (message ti)) as [tgt txmsg].
    destruct (isDead txmsg).
    + unfold bind in H.
      destruct (emit _ w) as [[u w1]|]; [|discriminate].
      destruct (tx_done E fuel ti Sent w1) as [[u' w2]|]; [|discriminate].
      injection H as <- _. destruct Ho; discriminate.
    + destruct tgt; [eapply Hser; eassumption|].
      injection H as _ <-. reflexivity.
  - intros prep m -> Hp Hm. unfold scheduleTransmit. rewrite Hp, (Hnd m Hm).
    reflexivity.
  - intros -> Hs. unfold scheduleTransmit, serialize_and_schedule.
    rewrite Hs. reflexivity.
  - intros prep a m -> Hp Hm Hs.
    unfold scheduleTransmit, serialize_and_schedule.
    rewrite Hp, (Hnd m Hm), Hs. reflexivity.
Qed.

Lemma X10_witness :
  scheduleTransmit demo_env 3 true (Some (fun _ m => (None, m)))
                   (intent 1 forever) false demo_world
  = Some (Raised_CannotPickleAddress, demo_world).
Proof.
  apply (proj1 (proj2 (X10_scheduleTransmit_raises_cleanly demo_env 3 true
                         (Some (fun _ m => (None, m))) (intent 1 forever)
                         false demo_world))
           (fun _ m => (None, m)) (UserMessage 1 false)).
  - reflexivity.
  - reflexivity.
  - discriminate.
Defined.

(* ----------------------------------------------------------------- *)
(** *** Sweeps while the clock stands still *)

Section StillClock.
Variable E : Env.
Variable now : Z.
Hypothesis still : forall r, clock E r = now.

Lemma sweep_world_still w :
  _aTB_queuedPendingTransmits (sweep_world E w)
  = filter (fun ti => negb (expired_at now ti)) (_aTB_queuedPendingTransmits w)
  /\ trace (sweep_world E w)
     = trace w ++ sweep_events
                    (filter (expired_at now) (_aTB_queuedPendingTransmits w))
  /\ sweep_result E w
     = (Z.of_nat (length (filter (fun ti => negb (expired_at now ti))
                                 (_aTB_queuedPendingTransmits w))),
        existsb (expired_at now) (_aTB_queuedPendingTransmits w)).
Proof.
  rewrite sweep_world_queue, sweep_world_trace. unfold sweep_result.
  pose proof (sweep_split_still (clock E) now (_aTB_queuedPendingTransmits w)
                (reads w) (fun r _ => still r)) as Hs.
  destruct (sweep_split (clock E) (reads w) (_aTB_queuedPendingTransmits w))
    as [[yes no] r]. cbn in Hs. injection Hs as -> ->. cbn.
  rewrite filter_nil_existsb. auto.
Qed.

Lemma filter_valid_twice (q : list TransmitIntent) :
  existsb (expired_at now)
          (filter (fun ti => negb (expired_at now ti)) q) = false.
Proof.
  induction q as [|x q IH]; [reflexivity|]. cbn.
  destruct (expired_at now x) eqn:Hx; cbn; [exact IH|].
  rewrite Hx. exact IH.
Qed.

Lemma swept_valid w w' :
  swept E w w' ->
  existsb (expired_at now) (_aTB_queuedPendingTransmits w) = false ->
  _aTB_queuedPendingTransmits w' = _aTB_queuedPendingTransmits w.
Proof.
  induction 1 as [w|w w' _ IH]; [reflexivity|]. intros Hv.
  destruct (sweep_world_still w) as (Hq & _ & _).
  destruct (filter_none _ _ Hv) as [_ Hf]. rewrite Hf in Hq.
  rewrite <- Hq. apply IH. rewrite Hq. exact Hv.
Qed.

(** After the sweeps of [_runQueued] no queued intent is expired. *)
Lemma sweep_all_valid rq k w w' :
  queue_fresh w -> sweep_all E rq k w = Some (tt, w') ->
  _aTB_queuedPendingTransmits w'
  = filter (fun ti => negb (expired_at now ti)) (_aTB_queuedPendingTransmits w).
Proof.
  intros Hq H. unfold sweep_all, bind in H.
  rewrite (sweep_eq E rq k w Hq) in H.
  pose proof (sweep_until_stable_partial E rq k _ _ _ _
                (sweep_world_fresh E w Hq) H) as Hs.
  destruct (sweep_world_still w) as (Hq1 & _ & _).
  rewrite <- Hq1. apply (swept_valid _ _ Hs).
  rewrite Hq1. apply filter_valid_twice.
Qed.

End StillClock.

(** X13.  While the clock stands still, a second expiry sweep is a no-op:
    it reports the same count and no removal, and leaves queue and trace as
    the first sweep left them. *)
Theorem X13_sweep_idempotent
    (E : Env) (now : Z) (fuel fuel' : nat) (w : World) :
  (forall r, clock E r = now) ->
  queue_fresh w ->
  exists v e w1 w2,
    _complete_expired_intents E fuel w = Some ((v, e), w1)
    /\ _complete_expired_intents E fuel' w1 = Some ((v, false), w2)
    /\ _aTB_queuedPendingTransmits w2 = _aTB_queuedPendingTransmits w1
    /\ trace w2 = trace w1.
Proof.
  intros Hc Hq.
  destruct (sweep_world_still E now Hc w) as (Hq1 & Ht1 & Hr1).
  pose proof (sweep_world_fresh E w Hq) as Hf1.
  destruct (sweep_world_still E now Hc (sweep_world E w)) as (Hq2 & Ht2 & Hr2).
  pose proof (filter_valid_twice now (_aTB_queuedPendingTransmits w)) as Hv.
  rewrite <- Hq1 in Hv.
  destruct (filter_none _ _ Hv) as [Hnone Hsame].
  rewrite Hsame in Hq2, Hr2. rewrite Hnone in Ht2. rewrite Hv in Hr2.
  cbn in Ht2. rewrite app_nil_r in Ht2.
  eexists _, _, (sweep_world E w), (sweep_world E (sweep_world E w)).
  unfold _complete_expired_intents.
  rewrite (sweep_eq E _ _ w Hq), (sweep_eq E _ _ _ Hf1), Hr1, Hr2, Hq1.
  repeat split; auto. rewrite <- Hq1. exact Hq2.
Qed.

Lemma X13_witness :
  exists v e w1 w2,
    _complete_expired_intents still_env 1
      (set_queuedPendingTransmits
         [queued 1 (until 0); queued 2 forever] init_world)
    = Some ((v, e), w1)
    /\ _complete_expired_intents still_env 1 w1 = Some ((v, false), w2)
    /\ _aTB_queuedPendingTransmits w2 = _aTB_queuedPendingTransmits w1
    /\ trace w2 = trace w1.
Proof.
  apply (X13_sweep_idempotent still_env 0).
  - reflexivity.
  - repeat constructor.
Defined.

Lemma swept_transmitted E w w' :
  swept E w w' -> transmitted_ids (trace w') = transmitted_ids (trace w).
Proof.
  induction 1 as [w|w w' _ IH]; [reflexivity|].
  rewrite IH, sweep_world_trace, transmitted_ids_app,
    transmitted_ids_sweep_events, app_nil_r. reflexivity.
Qed.

(** X14.  While the clock stands still, [_runQueued] never sends an intent
    whose deadline has passed: when it returns [True], the intent for which
    it entered the Transport is the first queued intent that is not
    expired. *)
Theorem X14_expired_intent_not_submitted
    (E : Env) (now : Z) (fuel : nat) (flag : bool) (w w' : World) :
  (forall r, clock E r = now) ->
  WF w ->
  _runQueued E fuel flag w = Some (true, w') ->
  exists x rest new,
    filter (fun ti => negb (expired_at now ti)) (_aTB_queuedPendingTransmits w)
    = x :: rest
    /\ expired_at now x = false
    /\ transmitted_ids (trace w')
       = transmitted_ids (trace w) ++ ident x :: new.
Proof.
  intros Hc HW H. destruct fuel as [|k]; [discriminate|].
  cbn [_runQueued] in H. unfold _runQueued_body in H. minv H. destruct a.
  pose proof (sweep_all_valid E now Hc _ _ _ _ (proj1 HW) Hm) as Hq1.
  pose proof (sweep_all_partial E _ _ _ _ (proj1 HW) Hm) as Hsw.
  pose proof (swept_transmitted E _ _ Hsw) as Ht1.
  pose proof (core_steps_WF E _ _ (swept_core E _ _ Hsw (proj1 HW)) HW) as HW1.
  rewrite submit_next_eq in H.
  destruct (flag || negb (_aTB_processing w0)); [|discriminate].
  destruct (_aTB_sending w0); [discriminate|].
  destruct (_aTB_queuedPendingTransmits w0) as [|x rest] eqn:Hq0;
    [discriminate|].
  assert (Hx : expired_at now x = false).
  { assert (Hin : In x (filter (fun ti => negb (expired_at now ti))
                               (_aTB_queuedPendingTransmits w)))
      by (rewrite <- Hq1; left; reflexivity).
    apply filter_In in Hin. destruct Hin as [_ Hv].
    apply negb_true_iff in Hv. exact Hv. }
  pose proof (WF_head _ _ _ HW1 Hq0) as Hcx.
  rewrite submitTransmit_eq in H.
  destruct (transmitActual E (addCallback x) (entered x (popped rest w0)))
    as [s|].
  - rewrite tx_done_body_registered in H by (cbn; rewrite Hcx; reflexivity).
    destruct (refill_loop E (_runQueued E k) k
                (completed (addCallback x) s (entered x (popped rest w0))))
      as [[[] w2]|] eqn:Hrf; [|discriminate].
    injection H as <-.
    assert (HWc : WF (completed (addCallback x) s (entered x (popped rest w0)))).
    { destruct HW1 as [Hqf Hif]. unfold queue_fresh in Hqf.
      rewrite Hq0 in Hqf. inversion Hqf; subst. split; assumption. }
    pose proof (refill_refines E _ _ (runQueued_refines E k) _ _ HWc Hrf) as S2.
    destruct (core_steps_fifo E _ _ S2) as (new & En & _).
    exists x, rest, new. split; [symmetry; exact Hq1|]. split; [exact Hx|].
    cbn [released trace set_processing set_sending]. rewrite En. cbn.
    rewrite !transmitted_ids_app. cbn. rewrite Ht1, app_nil_r.
    rewrite <- app_assoc. reflexivity.
  - injection H as <-. exists x, rest, [].
    split; [symmetry; exact Hq1|]. split; [exact Hx|].
    cbn. rewrite transmitted_ids_app. cbn. rewrite Ht1. reflexivity.
Qed.

Lemma X14_witness :
  exists x rest new,
    filter (fun ti => negb (expired_at 0 ti))
           [queued 1 (until 0); queued 2 forever] = x :: rest
    /\ expired_at 0 x = false
    /\ transmitted_ids
         [EvLog (LogTimedOut 1); EvTxDone 1 Failed;
          EvTransmitActual 2 1 true true]
       = [] ++ ident x :: new.
Proof.
  apply (X14_expired_intent_not_submitted still_env 0 2 false
           (set_queuedPendingTransmits
              [queued 1 (until 0); queued 2 forever] init_world)
           (mkWorld 1 false false [] true false 1 [addCallback (queued 2 forever)]
              [EvLog (LogTimedOut 1); EvTxDone 1 Failed;
               EvTransmitActual 2 1 true true])).
  - reflexivity.
  - split; repeat constructor.
  - vm_compute. reflexivity.
Defined.

(** X11.  A freed slot is filled from the queue.  With every slot in use,
    the rights free, and a queue whose intents do not expire, the completion
    of an intent that the Transport holds makes [_async_txdone] submit the
    head of the queue, and only it: when the Transport keeps that intent,
    the count is back at [MAX_PENDING_TRANSMITS], the head has moved from the
    queue to the Transport, and both flags are clear again. *)
Theorem X11_completion_refills_slot
    (E : Env) (fuel : nat) (id : nat) (s : SendStatus) (w : World)
    (x y : TransmitIntent) (rest held : list TransmitIntent) :
  WF w -> quiet w ->
  _aTB_queuedPendingTransmits w = x :: rest ->
  Forall (never_expires_from (clock E) (reads w)) (x :: rest) ->
  take_inflight id (inflight w) = Some (y, held) ->
  _aTB_numPendingTransmits w = MAX_PENDING_TRANSMITS E ->
  (forall w0, transmitActual E (addCallback x) w0 = None) ->
  (S (S (length rest)) < fuel)%nat ->
  exists w',
    transport_complete E fuel id s w = Some (tt, w')
    /\ _aTB_queuedPendingTransmits w' = rest
    /\ inflight w' = held ++ [addCallback x]
    /\ _aTB_numPendingTransmits w' = MAX_PENDING_TRANSMITS E
    /\ trace w'
       = trace w ++ [EvTxDone (ident y) s;
                     EvTransmitActual (ident x) (MAX_PENDING_TRANSMITS E)
                                      true true]
    /\ quiet w'.
Proof.
  intros HW [Hp Hs] Hq Hne Ht Hn Hkeep Hf.
  destruct (take_inflight_Forall _ _ _ _ _ Ht (proj2 HW)) as [Hy Hheld].
  unfold transport_complete. unfold bind at 1. cbn [get]. rewrite Ht.
  unfold bind, modify, tx_done.
  rewrite (tx_done_body_registered E _ _ _ _ _ Hy).
  set (wc := completed y s (set_inflight held w)).
  destruct fuel as [|k]; [lia|].
  rewrite refill_loop_S.
  assert (Hnc : (_aTB_numPendingTransmits wc <? MAX_PENDING_TRANSMITS E) = true)
    by (apply Z.ltb_lt; unfold wc; cbn; lia).
  rewrite Hnc.
  assert (Hwc : _aTB_numPendingTransmits wc = _aTB_numPendingTransmits w - 1
                /\ _aTB_queuedPendingTransmits wc = _aTB_queuedPendingTransmits w
                /\ trace wc = trace w ++ [EvTxDone (ident y) s]
                /\ _aTB_processing wc = _aTB_processing w
                /\ _aTB_sending wc = _aTB_sending w
                /\ inflight wc = held /\ reads wc = reads w)
    by (repeat split; reflexivity).
  destruct Hwc as (Wn & Wq & Wt & Wp & Ws & Wi & Wr).
  destruct (runQueued_after_sweeps E k false wc) as (w1 & Hsw & Hrun).
  { exact (proj1 HW). }
  { rewrite Wq, Hq. cbn. lia. }
  destruct (swept_never E _ _ Hsw) as [Hq1 Ht1].
  { rewrite Wq, Wr, Hq. exact Hne. }
  destruct (swept_fields E _ _ Hsw) as (En & Ep & Es & _ & _ & Ei).
  rewrite Wn in En. rewrite Wp in Ep. rewrite Ws in Es. rewrite Wi in Ei.
  rewrite Wq in Hq1. rewrite Wt in Ht1.
  destruct k as [|k]; [lia|]. rewrite Hrun.
  rewrite submit_next_eq, Ep, Es, Hp, Hs, Hq1, Hq. cbn [orb negb].
  rewrite submitTransmit_eq, Hkeep.
  rewrite refill_loop_S.
  set (w2 := released (set_inflight (inflight (popped rest w1) ++ [addCallback x])
                         (entered x (popped rest w1)))).
  assert (Hw2 : _aTB_numPendingTransmits w2 = _aTB_numPendingTransmits w1 + 1
                /\ _aTB_queuedPendingTransmits w2 = rest
                /\ inflight w2 = inflight w1 ++ [addCallback x]
                /\ trace w2
                   = trace w1 ++ [EvTransmitActual (ident x)
                                    (_aTB_numPendingTransmits w1 + 1) true true]
                /\ quiet w2)
    by (repeat split; reflexivity).
  destruct Hw2 as (Vn & Vq & Vi & Vt & Vf).
  assert (Hfull : (_aTB_numPendingTransmits w2 <? MAX_PENDING_TRANSMITS E)
                  = false) by (apply Z.ltb_ge; lia).
  rewrite Hfull. exists w2. split; [reflexivity|].
  rewrite Vn, Vq, Vi, Vt, Ei, Ht1, En, <- app_assoc.
  replace (_aTB_numPendingTransmits w - 1 + 1) with (MAX_PENDING_TRANSMITS E)
    by lia.
  repeat split; try apply Vf; reflexivity.
Qed.

Lemma X11_witness :
  exists w',
    transport_complete demo_env 8 1 Sent demo_world3 = Some (tt, w')
    /\ _aTB_queuedPendingTransmits w' = []
    /\ _aTB_numPendingTransmits w' = 2.
Proof.
  destruct (X11_completion_refills_slot demo_env 8 1 Sent demo_world3
              (queued 3 forever) (addCallback (queued 1 forever))
              [] [addCallback (queued 2 forever)])
    as (w' & H & Hq & _ & Hn & _).
  - split; repeat constructor.
  - split; reflexivity.
  - reflexivity.
  - repeat constructor.
  - reflexivity.
  - reflexivity.
  - reflexivity.
  - cbn. lia.
  - exists w'. auto.
Defined.

(* ----------------------------------------------------------------- *)
(** *** The two flags are given back *)

Section Flags.
Variable E : Env.

Lemma flags_refl w : flags_kept_or_clear w w.
Proof. right. auto. Qed.

Lemma flags_trans w1 w2 w3 :
  flags_kept_or_clear w1 w2 -> flags_kept_or_clear w2 w3 ->
  flags_kept_or_clear w1 w3.
Proof.
  unfold flags_kept_or_clear, quiet.
  intros [H12|[Hp Hs]] [H23|[Hp' Hs']]; auto.
  - left. rewrite Hp', Hs'. exact H12.
  - right. rewrite Hp', Hs'. auto.
Qed.

Lemma flags_swept w w' : swept E w w' -> flags_kept_or_clear w w'.
Proof.
  intros H. destruct (swept_fields E _ _ H) as (_ & Hp & Hs & _).
  right. auto.
Qed.

Lemma runQueued_flags fuel flag w b w' :
  queue_fresh w ->
  _runQueued E fuel flag w = Some (b, w') -> flags_kept_or_clear w w'.
Proof.
  intros Hq H. destruct fuel as [|k]; [discriminate|].
  cbn [_runQueued] in H. unfold _runQueued_body in H. minv H. destruct a.
  pose proof (sweep_all_partial E _ _ _ _ Hq Hm) as Hsw.
  eapply flags_trans; [apply flags_swept; exact Hsw|].
  rewrite submit_next_eq in H.
  destruct (flag || negb (_aTB_processing w0)).
  2:{ injection H as _ <-. left. split; reflexivity. }
  destruct (_aTB_sending w0); [injection H as _ <-; apply flags_refl|].
  destruct (_aTB_queuedPendingTransmits w0) as [|x rest];
    [injection H as _ <-; apply flags_refl|].
  destruct (_submitTransmit_body E _ _ x (popped rest w0)) as [[u w2]|];
    [|discriminate].
  injection H as _ <-. left. split; reflexivity.
Qed.

Lemma refill_flags fuel n : forall w w',
  WF w ->
  refill_loop E (_runQueued E fuel) n w = Some (tt, w') ->
  flags_kept_or_clear w w'.
Proof.
  induction n as [|n IH]; intros w w' HW H; [discriminate|].
  rewrite refill_loop_S in H.
  destruct (_aTB_numPendingTransmits w <? MAX_PENDING_TRANSMITS E) eqn:Hc;
    [|injection H as <-; apply flags_refl].
  apply Z.ltb_lt in Hc.
  destruct (_runQueued E fuel false w) as [[[] w1]|] eqn:Hr; [| |discriminate].
  - eapply flags_trans; [eapply runQueued_flags; [apply HW|exact Hr]|].
    apply IH; [|exact H].
    eapply core_steps_WF; [|exact HW].
    eapply runQueued_refines; eassumption.
  - injection H as <-. eapply runQueued_flags; [apply HW|exact Hr].
Qed.

Lemma transport_complete_flags fuel id s w w' :
  WF w -> transport_complete E fuel id s w = Some (tt, w') ->
  flags_kept_or_clear w w'.
Proof.
  intros HW H. unfold transport_complete in H.
  unfold bind at 1 in H. cbn [get] in H.
  destruct (take_inflight id (inflight w)) as [[x rest]|] eqn:Ht;
    [|injection H as <-; apply flags_refl].
  unfold bind, modify, tx_done in H.
  destruct (take_inflight_Forall _ _ _ _ _ Ht (proj2 HW)) as [Hx Hrest].
  rewrite (tx_done_body_registered E _ _ _ _ _ Hx) in H.
  destruct (refill_loop E (_runQueued E fuel) fuel
              (completed x s (set_inflight rest w)))
    as [[[] w2]|] eqn:Hrf; [|discriminate].
  injection H as <-.
  apply (refill_flags fuel fuel (completed x s (set_inflight rest w)));
    [|exact Hrf].
  split; [apply HW|exact Hrest].
Qed.

Lemma drain_flags fuel d w x w' :
  WF w -> _drain_tx_queue_if_needed E fuel d w = Some (x, w') ->
  flags_kept_or_clear w w'.
Proof.
  intros HW H. unfold _drain_tx_queue_if_needed in H.
  minv H. destruct (sweep_refines E _ _ _ _ HW Hm) as (_ & -> & ->).
  eapply flags_trans;
    [apply flags_swept; apply swept_step, swept_refl|]. right.
  unfold bind at 1 in H. cbn [get] in H.
  destruct (_ && _); [|injection H as _ <-; auto].
  minv H. destruct (liftC_refines E _ _ _ _ Hm0) as (_ & _ & ->).
  unfold bind at 1 in H. rewrite emit_eq in H.
  minv H. destruct (drain_loop_inv E _ _ _ _ _ _ _ Hm1) as [-> ->].
  destruct (_ <? _).
  - injection H as _ <-. auto.
  - unfold bind in H. rewrite emit_eq in H. injection H as _ <-. auto.
Qed.

Lemma throttle_quiet fuel ti flag w r w' :
  WF w -> quiet w ->
  throttle E fuel ti flag w = Some (r, w') -> quiet w'.
Proof.
  intros HW [Hp Hs] H. unfold throttle in H.
  unfold bind at 1 in H. unfold _canSendNow in H. cbn [get] in H.
  destruct (_ <? _); [injection H as _ <-; split; assumption|].
  unfold bind at 1 in H.
  assert (Hgot : exists w0,
             (if flag then ret true else _exclusively_processing) w
             = Some (true, w0)
             /\ _aTB_sending w0 = false /\ WF w0).
  { destruct flag; [exists w; auto|].
    exists (set_processing true w). unfold _exclusively_processing.
    rewrite Hp. auto. }
  destruct Hgot as (w0 & Hg & Hs0 & HW0). rewrite Hg in H.
  unfold bind at 1 in H. unfold bind at 1 in H. cbn [get] in H.
  rewrite Hs0 in H. unfold bind at 1 in H. cbn [modify ret] in H.
  unfold bind at 1 in H. unfold bind at 1 in H.
  unfold _not_processing in H. cbn [modify ret] in H.
  minv H. unfold intent_delay in Hm.
  destruct (liftC_refines E _ _ _ _ Hm) as (_ & _ & ->).
  minv H.
  match type of Hm0 with
  | _drain_tx_queue_if_needed E fuel ?d ?wd = _ =>
      assert (HWd : WF wd) by exact HW0;
      pose proof (drain_flags fuel d wd _ _ HWd Hm0) as F
  end.
  unfold bind, modify in H.
  assert (w' = set_sending false w1) as ->
    by (destruct a0; injection H as _ <-; reflexivity).
  destruct F as [[Fp Fs]|[Fp Fs]]; split; cbn; auto.
Qed.

Lemma drive_loop_quiet fuel n main flag : forall w w',
  WF w -> quiet w ->
  drive_loop E fuel n main flag w = Some (tt, w') -> quiet w'.
Proof.
  induction n as [|n IH]; intros w w' HW Hq H; [discriminate|].
  cbn [drive_loop] in H.
  unfold bind at 1 in H. unfold _canSendNow in H. cbn [get] in H.
  destruct (_aTB_numPendingTransmits w <? MAX_PENDING_TRANSMITS E) eqn:Hc;
    [|injection H as <-; exact Hq].
  apply Z.ltb_lt in Hc. minv H.
  assert (Hq0 : quiet w0).
  { destruct (runQueued_flags _ _ _ _ _ (proj1 HW) Hm) as [F|[Fp Fs]];
      [exact F|]. destruct Hq. split; congruence. }
  pose proof (core_steps_WF E _ _ (runQueued_refines E fuel _ _ _ _ HW Hc Hm)
                HW) as HW0.
  destruct a; [eapply IH; eassumption|].
  unfold bind at 1 in H. cbn [get] in H.
  destruct (negb main && negb (_aTB_interrupted w0));
    [|injection H as <-; exact Hq0].
  unfold bind, modify in H. rewrite emit_eq in H. injection H as <-.
  exact Hq0.
Qed.

Lemma admit_prepared_quiet fuel ti w go w' :
  callbacks ti = O -> quiet w ->
  admit_prepared E fuel ti w = Some (go, w') -> quiet w'.
Proof.
  intros Hc Hq H. rewrite (admit_prepared_eq E _ _ _ Hc) in H.
  destruct (is_nil (serMsg ti)); [injection H as _ <-; exact Hq|].
  destruct (is_UpdateWork (message ti)); [injection H as _ <-; exact Hq|].
  destruct (_ <? _); injection H as _ <-; exact Hq.
Qed.

Lemma schedulePreparedIntent_quiet fuel main ti flag w r w' :
  callbacks ti = O -> WF w -> quiet w ->
  _schedulePreparedIntent E fuel main ti flag w = Some (r, w') -> quiet w'.
Proof.
  intros Hc HW Hq H. unfold _schedulePreparedIntent in H. minv H.
  pose proof (admit_prepared_quiet _ _ _ _ _ Hc Hq Hm) as Hq0.
  pose proof (admit_prepared_WF E _ _ _ _ _ Hc HW Hm) as HW0.
  destruct a; [|injection H as _ <-; exact Hq0].
  minv H.
  pose proof (throttle_quiet _ _ _ _ _ _ HW0 Hq0 Hm0) as Hq1.
  pose proof (core_steps_WF E _ _ (throttle_refines E _ _ _ _ _ _ HW0 Hm0) HW0)
    as HW1.
  destruct a as [[]|e]; [|injection H as _ <-; exact Hq1].
  minv H. destruct a. injection H as _ <-.
  eapply drive_loop_quiet; eassumption.
Qed.

Lemma scheduleTransmit_quiet fuel main am ti flag w o w' :
  callbacks ti = O -> WF w -> quiet w ->
  scheduleTransmit E fuel main am ti flag w = Some (o, w') -> quiet w'.
Proof.
  intros Hc HW Hq H.
  assert (Hser : forall ti',
             callbacks ti' = O ->
             serialize_and_schedule E fuel main ti' flag w = Some (o, w') ->
             quiet w').
  { intros ti' Hc' H'. unfold serialize_and_schedule in H'.
    destruct (serializer E ti'); [|injection H' as _ <-; exact Hq].
    unfold bind at 1 in H'. rewrite emit_eq in H'. minv H'.
    assert (w' = w0) as -> by (destruct a; injection H' as _ <-; reflexivity).
    eapply (schedulePreparedIntent_quiet fuel main (set_serMsg l ti'));
      [exact Hc'| | |exact Hm]; assumption. }
  unfold scheduleTransmit in H. destruct am as [prep|]; [|eauto].
  destruct (prep (targetAddr ti) (message ti)) as [tgt txmsg].
  destruct (isDead txmsg).
  - unfold bind in H. rewrite emit_eq in H.
    rewrite (tx_done_fresh E _ _ _ _ Hc) in H. injection H as _ <-. exact Hq.
  - destruct tgt; [|injection H as _ <-; exact Hq].
    eapply Hser; [|exact H]. exact Hc.
Qed.

End Flags.

(** X12.  No operation leaves a flag set.  In every state the core reaches
    (submissions of new intents, completions by the Transport, dead
    addresses, the drain switch), nobody holds the submission rights and no
    submission is marked under way once the operation has returned. *)
Theorem X12_flags_given_back (E : Env) (w : World) (acc : list nat) :
  reachable E w acc ->
  _aTB_processing w = false /\ _aTB_sending w = false.
Proof.
  intros Hr. change (quiet w).
  induction Hr as [|w acc fuel main am ti flag w' o Hr IH Hc Hn H Ho
                   |w acc fuel main am ti flag w' o Hr IH Hc Hn H Ho
                   |w acc fuel id s w' Hr IH H
                   |w acc am child w' Hr IH H
                   |w acc b w' Hr IH H].
  - split; reflexivity.
  - eapply scheduleTransmit_quiet; [exact Hc| |exact IH|exact H].
    eapply Inv_WF, reachable_Inv, Hr.
  - eapply scheduleTransmit_quiet; [exact Hc| |exact IH|exact H].
    eapply Inv_WF, reachable_Inv, Hr.
  - destruct (transport_complete_flags E _ _ _ _ _
                (Inv_WF _ _ _ (reachable_Inv E _ _ Hr)) H) as [F|[Fp Fs]];
      [exact F|]. destruct IH. split; congruence.
  - unfold deadAddress, modify in H. injection H as <-. exact IH.
  - unfold enableRXPauseFlowControl, modify in H. injection H as <-. exact IH.
Qed.

Lemma X12_witness :
  _aTB_processing demo_world = false /\ _aTB_sending demo_world = false.
Proof.
  exact (X12_flags_given_back demo_env demo_world _ demo_reachable).
Defined.

(* ----------------------------------------------------------------- *)
(** *** The Transport's [run] is never called *)

Section NoRun.
Variable E : Env.

Lemma core_step_runs w w' :
  core_step E w w' -> runs (trace w') = runs (trace w).
Proof.
  destruct 1; cbn; try reflexivity.
  - apply sweep_world_runs.
  - rewrite runs_app. destruct H; cbn; lia.
  - rewrite runs_app. cbn. lia.
  - rewrite runs_app. cbn. lia.
  - rewrite runs_app. cbn. lia.
Qed.

Lemma core_steps_runs w w' :
  core_steps E w w' -> runs (trace w') = runs (trace w).
Proof.
  induction 1 as [w|w1 w2 w3 H1 _ IH]; [reflexivity|].
  rewrite IH. apply core_step_runs. exact H1.
Qed.

Lemma admit_prepared_runs fuel ti w go w' :
  callbacks ti = O ->
  admit_prepared E fuel ti w = Some (go, w') ->
  runs (trace w') = runs (trace w).
Proof.
  intros Hc H. rewrite (admit_prepared_eq E _ _ _ Hc) in H.
  destruct (is_nil (serMsg ti));
    [injection H as _ <-; cbn; rewrite runs_app; cbn; lia|].
  destruct (is_UpdateWork (message ti));
    [injection H as _ <-; cbn; rewrite runs_app; cbn; lia|].
  destruct (_ <? _); injection H as _ <-; cbn; [reflexivity|].
  rewrite runs_app. cbn. lia.
Qed.

Lemma schedulePreparedIntent_runs fuel main ti flag w r w' :
  WF w -> callbacks ti = O ->
  _schedulePreparedIntent E fuel main ti flag w = Some (r, w') ->
  runs (trace w') = runs (trace w).
Proof.
  intros HW Hc H. unfold _schedulePreparedIntent in H. minv H.
  pose proof (admit_prepared_runs _ _ _ _ _ Hc Hm) as R0.
  pose proof (admit_prepared_WF E _ _ _ _ _ Hc HW Hm) as HW0.
  destruct a; [|injection H as _ <-; exact R0].
  minv H.
  pose proof (throttle_refines E _ _ _ _ _ _ HW0 Hm0) as S1.
  pose proof (core_steps_WF E _ _ S1 HW0) as HW1.
  pose proof (core_steps_runs _ _ S1) as R1.
  destruct a as [[]|e]; [|injection H as _ <-; lia].
  minv H. destruct a. injection H as _ <-.
  destruct (drive_loop_spec E _ _ _ _ _ _ HW1 Hm1) as (w3 & S2 & Hd).
  pose proof (core_steps_runs _ _ S2) as R2.
  destruct Hd as [->|(_ & _ & ->)]; [lia|].
  cbn. rewrite runs_app. cbn. lia.
Qed.

Lemma scheduleTransmit_runs fuel main am ti flag w o w' :
  WF w -> callbacks ti = O ->
  scheduleTransmit E fuel main am ti flag w = Some (o, w') ->
  runs (trace w') = runs (trace w).
Proof.
  intros HW Hc H.
  assert (Hser : forall ti',
             callbacks ti' = O ->
             serialize_and_schedule E fuel main ti' flag w = Some (o, w') ->
             runs (trace w') = runs (trace w)).
  { intros ti' Hc' H'. unfold serialize_and_schedule in H'.
    destruct (serializer E ti') as [b|]; [|injection H' as _ <-; reflexivity].
    unfold bind at 1 in H'. rewrite emit_eq in H'. minv H'.
    assert (w' = w0) as -> by (destruct a; injection H' as _ <-; reflexivity).
    assert (HW1 : WF (set_trace (trace w ++ [EvSerialize (ident ti')]) w))
      by exact HW.
    rewrite (schedulePreparedIntent_runs _ _ (set_serMsg b ti') _ _ _ _
               HW1 Hc' Hm).
    cbn. rewrite runs_app. cbn. lia. }
  unfold scheduleTransmit in H. destruct am as [prep|]; [|eauto].
  destruct (prep (targetAddr ti) (message ti)) as [tgt txmsg].
  destruct (isDead txmsg).
  - unfold bind in H. rewrite emit_eq in H.
    rewrite (tx_done_fresh E _ _ _ _ Hc) in H. injection H as _ <-.
    cbn. rewrite !runs_app. cbn. lia.
  - destruct tgt; [|injection H as _ <-; reflexivity].
    eapply Hser; [|exact H]. exact Hc.
Qed.

End NoRun.

(** X15.  The drain never runs the Transport.  In every state the core
    reaches (submissions of new intents, however they end, completions by
    the Transport, dead addresses, the drain switch) [run(TransmitOnly, ..)]
    has not been called: the only call is in the body of the drain loop,
    which raises on entry. *)
Theorem X15_run_never_called (E : Env) (w : World) (acc : list nat) :
  reachable E w acc -> runs (trace w) = O.
Proof.
  intros Hr.
  induction Hr as [|w acc fuel main am ti flag w' o Hr IH Hc Hn H Ho
                   |w acc fuel main am ti flag w' o Hr IH Hc Hn H Ho
                   |w acc fuel id s w' Hr IH H
                   |w acc am child w' Hr IH H
                   |w acc b w' Hr IH H].
  - reflexivity.
  - rewrite <- IH. eapply scheduleTransmit_runs; [|exact Hc|exact H].
    eapply Inv_WF, reachable_Inv, Hr.
  - rewrite <- IH. eapply scheduleTransmit_runs; [|exact Hc|exact H].
    eapply Inv_WF, reachable_Inv, Hr.
  - rewrite <- IH. apply (core_steps_runs E).
    eapply transport_complete_refines; [|exact H].
    eapply Inv_WF, reachable_Inv, Hr.
  - unfold deadAddress, modify in H. injection H as <-. exact IH.
  - unfold enableRXPauseFlowControl, modify in H. injection H as <-. exact IH.
Qed.

Lemma X15_witness : runs (trace overload_world) = O.
Proof.
  exact (X15_run_never_called demo_env overload_world _ overload_reachable).
Defined.

(* ----------------------------------------------------------------- *)
(** *** Submissions from the driving thread *)

(** X17.  The driving thread never interrupts itself: a [scheduleTransmit]
    of a new intent from the main thread makes no call of
    [interrupt_wait] and does not set the interrupt flag. *)
Theorem X17_main_thread_never_interrupts
    (E : Env) (fuel : nat) (am : option AddressManager) (ti : TransmitIntent)
    (flag : bool) (w : World) (o : Outcome) (w' : World) :
  WF w -> callbacks ti = O ->
  scheduleTransmit E fuel true am ti flag w = Some (o, w') ->
  interrupts (trace w') = interrupts (trace w)
  /\ (_aTB_interrupted w' = true -> _aTB_interrupted w = true).
Proof.
  intros HW Hc H.
  assert (Hser : forall ti',
             callbacks ti' = O ->
             serialize_and_schedule E fuel true ti' flag w = Some (o, w') ->
             interrupts (trace w') = interrupts (trace w)
             /\ (_aTB_interrupted w' = true -> _aTB_interrupted w = true)).
  { intros ti' Hc' H'. unfold serialize_and_schedule in H'.
    destruct (serializer E ti') as [b|]; [|injection H' as _ <-; auto].
    unfold bind at 1 in H'. rewrite emit_eq in H'. minv H'.
    assert (w' = w0) as -> by (destruct a; injection H' as _ <-; reflexivity).
    assert (HW1 : WF (set_trace (trace w ++ [EvSerialize (ident ti')]) w))
      by exact HW.
    destruct (schedulePreparedIntent_interrupt E _ _ (set_serMsg b ti') _ _ _ _
                HW1 Hc' Hm) as [[Hn Hf]|(_ & Hmain & _)]; [|discriminate].
    cbn in Hn, Hf. rewrite interrupts_app in Hn. cbn in Hn.
    split; [lia|]. rewrite Hf.
    destruct (negb (is_nil b) && is_UpdateWork (message ti'));
      [discriminate|auto]. }
  unfold scheduleTransmit in H. destruct am as [prep|]; [|eauto].
  destruct (prep (targetAddr ti) (message ti)) as [tgt txmsg].
  destruct (isDead txmsg).
  - unfold bind in H. rewrite emit_eq in H.
    rewrite (tx_done_fresh E _ _ _ _ Hc) in H. injection H as _ <-.
    cbn. rewrite !interrupts_app. cbn. split; [lia|auto].
  - destruct tgt; [|injection H as _ <-; auto].
    eapply Hser; [|exact H]. exact Hc.
Qed.

Lemma X17_witness :
  interrupts (trace demo_world3) = O.
Proof.
  assert (H : scheduleTransmit demo_env 8 true None (intent 3 forever) false
                (submit_demo 2 (submit_demo 1 init_world))
              = Some (Returned, demo_world3)) by (vm_compute; reflexivity).
  assert (HW : WF (submit_demo 2 (submit_demo 1 init_world)))
    by (split; vm_compute; repeat constructor).
  destruct (X17_main_thread_never_interrupts demo_env 8 None
              (intent 3 forever) false _ _ _ HW eq_refl H) as [Hn _].
  rewrite Hn. vm_compute. reflexivity.
Defined.

Section Direct.
Variable E : Env.

Lemma drive_loop_S fuel n main flag w :
  drive_loop E fuel (S n) main flag w
  = if _aTB_numPendingTransmits w <? MAX_PENDING_TRANSMITS E then
      match _runQueued E fuel flag w with
      | Some (true, w0) => drive_loop E fuel n main flag w0
      | Some (false, w0) =>
          if negb main && negb (_aTB_interrupted w0) then
            Some (tt, set_trace (trace w0 ++ [EvInterruptWait])
                        (set_interrupted true w0))
          else Some (tt, w0)
      | None => None
      end
    else Some (tt, w).
Proof.
  cbn [drive_loop]. unfold bind at 1. unfold _canSendNow. cbn [get].
  destruct (_ <? _); [|reflexivity].
  unfold bind at 1. destruct (_runQueued E fuel flag w) as [[[] w0]|];
    try reflexivity.
  unfold bind at 1. cbn [get].
  destruct (negb main && negb (_aTB_interrupted w0)); reflexivity.
Qed.

End Direct.

(** X16.  With room for a transmit, nothing queued and the rights free, a
    new intent with a payload that the driving thread schedules goes to the
    Transport in the same call: it passes through the queue, the Transport
    is entered for it with both flags set, and when the Transport keeps it
    the intent is held there, the count is one more, the queue is empty
    again and both flags are clear. *)
Theorem X16_direct_submission
    (E : Env) (fuel : nat) (ti : TransmitIntent) (b : list nat) (w : World) :
  WF w -> quiet w ->
  _aTB_queuedPendingTransmits w = [] ->
  _aTB_numPendingTransmits w < MAX_PENDING_TRANSMITS E ->
  0 < DROP_TRANSMITS_LEVEL E ->
  callbacks ti = O ->
  serializer E ti = Some b -> b <> [] ->
  is_UpdateWork (message ti) = false ->
  never_expires_from (clock E) (reads w) ti ->
  (forall w0, transmitActual E (addCallback (set_serMsg b ti)) w0 = None) ->
  (2 < fuel)%nat ->
  exists w',
    scheduleTransmit E fuel true None ti false w = Some (Returned, w')
    /\ _aTB_queuedPendingTransmits w' = []
    /\ inflight w' = inflight w ++ [addCallback (set_serMsg b ti)]
    /\ _aTB_numPendingTransmits w' = _aTB_numPendingTransmits w + 1
    /\ trace w'
       = trace w ++ [EvSerialize (ident ti);
                     EvTransmitActual (ident ti)
                       (_aTB_numPendingTransmits w + 1) true true]
    /\ quiet w'.
Proof.
  intros HW [Hp Hs] Hq Hn Hdrop Hc Hser Hb Hwake Hne Hkeep Hf.
  set (ti' := set_serMsg b ti).
  unfold scheduleTransmit, serialize_and_schedule. rewrite Hser.
  unfold bind at 1. rewrite emit_eq. unfold bind at 1.
  unfold _schedulePreparedIntent. unfold bind at 1.
  rewrite (admit_prepared_eq E _ _ _ (Hc : callbacks ti' = O)).
  assert (Hnil : is_nil (serMsg ti') = false)
    by (cbn; destruct b; [contradiction|reflexivity]).
  rewrite Hnil. change (message ti') with (message ti). rewrite Hwake.
  cbn [_aTB_queuedPendingTransmits set_trace]. rewrite Hq. cbn [length].
  assert (Hd : (Z.of_nat 0 <? DROP_TRANSMITS_LEVEL E) = true)
    by (apply Z.ltb_lt; lia).
  rewrite Hd. cbn [app].
  set (w1 := set_queuedPendingTransmits [ti']
               (set_trace (trace w ++ [EvSerialize (ident ti)]) w)).
  assert (Hw1 : _aTB_numPendingTransmits w1 = _aTB_numPendingTransmits w
                /\ _aTB_queuedPendingTransmits w1 = [ti']
                /\ _aTB_processing w1 = _aTB_processing w
                /\ _aTB_sending w1 = _aTB_sending w
                /\ inflight w1 = inflight w
                /\ trace w1 = trace w ++ [EvSerialize (ident ti)]
                /\ reads w1 = reads w)
    by (repeat split; reflexivity).
  destruct Hw1 as (Wn & Wq & Wp & Ws & Wi & Wt & Wr).
  (* the throttle block does nothing *)
  unfold bind at 1. unfold throttle. unfold bind at 1.
  unfold _canSendNow. cbn [get]. rewrite Wn.
  assert (Hroom : (_aTB_numPendingTransmits w <? MAX_PENDING_TRANSMITS E)
                  = true) by (apply Z.ltb_lt; exact Hn).
  rewrite Hroom. cbn [ret].
  (* first round of the last loop: the intent is submitted *)
  destruct fuel as [|[|k]]; try lia.
  assert (Hdrive : exists w',
             drive_loop E (S (S k)) (S (S k)) true false w1 = Some (tt, w')
             /\ _aTB_queuedPendingTransmits w' = []
             /\ inflight w' = inflight w ++ [addCallback ti']
             /\ _aTB_numPendingTransmits w'
                = _aTB_numPendingTransmits w + 1
             /\ trace w'
                = trace w ++ [EvSerialize (ident ti);
                              EvTransmitActual (ident ti)
                                (_aTB_numPendingTransmits w + 1) true true]
             /\ quiet w');
    [|destruct Hdrive as (w' & Hd' & Hrest); exists w'; unfold bind;
      rewrite Hd'; split; [reflexivity|exact Hrest]].
  rewrite drive_loop_S, Wn, Hroom.
  assert (Hq1 : queue_fresh w1).
  { unfold queue_fresh. rewrite Wq. constructor; [exact Hc|constructor]. }
  destruct (runQueued_after_sweeps E (S k) false w1 Hq1) as (w2 & Hsw & ->).
  { rewrite Wq. cbn. lia. }
  destruct (swept_never E _ _ Hsw) as [Hq2 Ht2].
  { rewrite Wq, Wr. constructor; [exact Hne|constructor]. }
  destruct (swept_fields E _ _ Hsw) as (En & Ep & Es & _ & _ & Ei).
  rewrite submit_next_eq, Ep, Es, Wp, Ws, Hp, Hs, Hq2, Wq. cbn [orb negb].
  rewrite submitTransmit_eq, Hkeep.
  set (w3 := released (set_inflight (inflight (popped [] w2) ++ [addCallback ti'])
                         (entered ti' (popped [] w2)))).
  assert (Hw3 : _aTB_numPendingTransmits w3 = _aTB_numPendingTransmits w2 + 1
                /\ _aTB_queuedPendingTransmits w3 = []
                /\ inflight w3 = inflight w2 ++ [addCallback ti']
                /\ trace w3
                   = trace w2 ++ [EvTransmitActual (ident ti)
                                    (_aTB_numPendingTransmits w2 + 1) true true]
                /\ quiet w3)
    by (repeat split; reflexivity).
  destruct Hw3 as (Vn & Vq & Vi & Vt & Vf).
  assert (Hfinal : forall w4,
             swept E w3 w4 ->
             _aTB_queuedPendingTransmits w4 = []
             /\ inflight w4 = inflight w ++ [addCallback ti']
             /\ _aTB_numPendingTransmits w4 = _aTB_numPendingTransmits w + 1
             /\ trace w4
                = trace w ++ [EvSerialize (ident ti);
                              EvTransmitActual (ident ti)
                                (_aTB_numPendingTransmits w + 1) true true]
             /\ quiet w4).
  { intros w4 Hs4.
    destruct (swept_never E _ _ Hs4) as [Hq4 Ht4];
      [rewrite Vq; constructor|].
    destruct (swept_fields E _ _ Hs4) as (Fn & Fp & Fs & _ & _ & Fi).
    rewrite Hq4, Vq, Fi, Vi, Ei, Wi, Fn, Vn, En, Wn, Ht4, Vt, Ht2, Wt, En, Wn.
    rewrite <- app_assoc.
    repeat split; auto;
      try (rewrite Fp; apply Vf); try (rewrite Fs; apply Vf). }
  (* second round: no room, or nothing left to send *)
  rewrite drive_loop_S.
  destruct (_aTB_numPendingTransmits w3 <? MAX_PENDING_TRANSMITS E).
  - destruct (runQueued_idle E (S (S k)) false w3) as (w4 & Hs4 & Hr4).
    + unfold queue_fresh. rewrite Vq. constructor.
    + destruct Vf as [-> _]. reflexivity.
    + rewrite Vq. cbn. lia.
    + destruct (Hfinal w4 Hs4) as (Gq & Gi & Gn & Gt & Gf).
      rewrite (Hr4 (or_intror Gq)). cbn [negb andb].
      exists w4. repeat split; auto; apply Gf.
  - destruct (Hfinal w3 (swept_refl E w3)) as (Gq & Gi & Gn & Gt & Gf).
    exists w3. repeat split; auto; apply Gf.
Qed.

Lemma X16_witness :
  exists w',
    scheduleTransmit demo_env 3 true None (intent 1 forever) false init_world
    = Some (Returned, w')
    /\ _aTB_queuedPendingTransmits w' = []
    /\ inflight w' = [addCallback (set_serMsg [1%nat] (intent 1 forever))]
    /\ _aTB_numPendingTransmits w' = 1.
Proof.
  destruct (X16_direct_submission demo_env 3 (intent 1 forever) [1%nat]
              init_world)
    as (w' & H & Hq & Hi & Hn & _).
  - split; constructor.
  - split; reflexivity.
  - reflexivity.
  - cbn. lia.
  - cbn. lia.
  - reflexivity.
  - reflexivity.
  - discriminate.
  - reflexivity.
  - exact I.
  - reflexivity.
  - lia.
  - exists w'. auto.
Defined.
